(** * The scull character driver: quantum ioctl commands and the task registry

    A shallow embedding of [driver/scull.c]: the ioctl dispatcher
    [scull_ioctl], which operates on the module-wide [scull_quantum] and on
    the mutex-guarded list [task_info_node_list], and the teardown function
    [scull_cleanup_module], which prints and frees that list.

    The kernel services the driver calls (access_ok, __get_user,
    __put_user, copy_to_user, kmalloc, current) are not part of the driver;
    they are an interface here ([uaccess]) or an input of a call
    ([caller]).  The header [scull.h] is not among the sources: its
    constants are the fields of the record [scull_h]. *)

From Stdlib Require Import ZArith Lia Ascii.
From stdpp Require Import base list gmap sets strings.

#[local] Set Warnings "-clear-no-such-hyp".

Local Open Scope Z_scope.

(** ** C integers *)

(** Conversion of an integer value to [int] (32 bits, two's complement), as
    in [scull_quantum = arg] where [arg] is an [unsigned long]. *)
Definition int_of (x : Z) : Z := (x + 2 ^ 31) mod 2 ^ 32 - 2 ^ 31.

(** ** errno values (uapi/asm-generic/errno-base.h) *)

Definition EFAULT : Z := 14.
Definition ENOTTY : Z := 25.

(** ** Bit fields of a command code (uapi/asm-generic/ioctl.h) *)

Definition _IOC_NR (cmd : Z) : Z := Z.land cmd 255.
Definition _IOC_TYPE (cmd : Z) : Z := Z.land (Z.shiftr cmd 8) 255.
Definition _IOC_SIZE (cmd : Z) : Z := Z.land (Z.shiftr cmd 16) 16383.

Definition _IOC (dir type nr size : Z) : Z :=
  Z.lor (Z.lor (Z.shiftl dir 30) (Z.shiftl size 16))
        (Z.lor (Z.shiftl type 8) nr).

(** ** scull.h *)

(** The constants of [scull.h] that the driver uses.  [SCULL_QUANTUM] is
    an [int] constant; the eight [SCULL_IOC*] codes are the case labels of
    the switch in [scull_ioctl]. *)
Record scull_h := Scull_h {
  SCULL_QUANTUM : Z;
  SCULL_IOC_MAGIC : Z;
  SCULL_IOC_MAXNR : Z;
  SCULL_IOCRESET : Z;
  SCULL_IOCSQUANTUM : Z;
  SCULL_IOCTQUANTUM : Z;
  SCULL_IOCGQUANTUM : Z;
  SCULL_IOCQQUANTUM : Z;
  SCULL_IOCXQUANTUM : Z;
  SCULL_IOCHQUANTUM : Z;
  SCULL_IOCIQUANTUM : Z
}.

(** The case labels, in the order of the switch. *)
Definition case_labels (h : scull_h) : list Z :=
  [ SCULL_IOCRESET h; SCULL_IOCSQUANTUM h; SCULL_IOCTQUANTUM h;
    SCULL_IOCGQUANTUM h; SCULL_IOCQQUANTUM h; SCULL_IOCXQUANTUM h;
    SCULL_IOCHQUANTUM h; SCULL_IOCIQUANTUM h ].

(** A command code passes the two screens at the head of [scull_ioctl]. *)
Definition screened (h : scull_h) (cmd : Z) : bool :=
  (_IOC_TYPE cmd =? SCULL_IOC_MAGIC h) && (_IOC_NR cmd <=? SCULL_IOC_MAXNR h).

(** A header as a C compiler and the driver expect it: the case labels are
    pairwise distinct (a switch with a repeated label does not compile),
    and each of them carries the magic type and a number up to
    [SCULL_IOC_MAXNR]. *)
Definition header_ok (h : scull_h) : Prop :=
  NoDup (case_labels h) ∧ Forall (λ c, screened h c = true) (case_labels h).

(** ** Tasks *)

(** The fields of [current] that the driver reads. *)
Record task_struct := Task_struct {
  ts_state : Z; ts_cpu : Z; ts_prio : Z;
  ts_pid : Z; ts_tgid : Z;
  ts_nvcsw : Z; ts_nivcsw : Z
}.

(** [struct task_info] of scull.h, with the fields the driver assigns. *)
Record task_info := Task_info {
  state : Z; cpu : Z; prio : Z;
  pid : Z; tgid : Z;
  nvcsw : Z; nivcsw : Z
}.

(** [struct task_info_node], without its [list_head]: the position of a
    node in [task_info_node_list] is its link. *)
Record task_info_node := Task_info_node {
  node_pid : Z;
  node_tgid : Z
}.

(** ** User memory access *)

(** The user-access primitives of the kernel, over a type [umem] of user
    address spaces.  [access_ok addr size] is the range check; the other
    three access the memory and may fault: [get_user_int] and
    [put_user_int] are the transfers behind [__get_user] and [__put_user]
    on an [int __user *] ([None] for a fault), and [copy_to_user] returns
    the number of bytes it could not copy together with the memory it
    leaves. *)
Class uaccess (umem : Type) := Uaccess {
  access_ok : Z → Z → bool;
  get_user_int : umem → Z → option Z;
  put_user_int : umem → Z → Z → option umem;
  copy_to_user : umem → Z → task_info → Z * umem
}.

(** ** Module state *)

Record scull_state := Scull_state {
  scull_quantum : Z;
  task_info_node_list : list task_info_node
}.

Definition set_quantum (st : scull_state) (q : Z) : scull_state :=
  {| scull_quantum := q; task_info_node_list := task_info_node_list st |}.

Definition set_list (st : scull_state) (l : list task_info_node) : scull_state :=
  {| scull_quantum := scull_quantum st; task_info_node_list := l |}.

(** What a call finds in its environment: the calling task [current],
    whether [kmalloc] would return a node, and the caller's memory. *)
Record caller (umem : Type) := Caller {
  current : task_struct;
  kmalloc_ok : bool;
  user : umem
}.
Arguments Caller {umem} _ _ _.
Arguments current {umem} _.
Arguments kmalloc_ok {umem} _.
Arguments user {umem} _.

(** One [printk] line of the teardown: count, PID, TGID. *)
Definition task_line : Type := Z * Z * Z.

Section Driver.

Context (hdr : scull_h) {umem : Type} `{UA : !uaccess umem}.

(** [__get_user(x, ptr)]: the status and the value left in [x], which
    the kernel sets to zero when the access faults. *)
Definition __get_user (m : umem) (ptr : Z) : Z * Z :=
  match get_user_int m ptr with
  | Some v => (0, v)
  | None => (- EFAULT, 0)
  end.

(** [__put_user(x, ptr)]: the status and the memory after it. *)
Definition __put_user (m : umem) (x ptr : Z) : Z * umem :=
  match put_user_int m ptr x with
  | Some m' => (0, m')
  | None => (- EFAULT, m)
  end.

(** The [list_for_each_entry] loop of the SCULL_IOCIQUANTUM case: is
    there a node with this pid and tgid? *)
Fixpoint found_in (l : list task_info_node) (p t : Z) : bool :=
  match l with
  | [] => false
  | task_iter :: rest =>
      if (node_pid task_iter =? p) && (node_tgid task_iter =? t) then true
      else found_in rest p t
  end.

(** The critical section of the SCULL_IOCIQUANTUM case, between
    [mutex_lock] and [mutex_unlock]. *)
Definition record_task (c : caller umem) (l : list task_info_node)
  : list task_info_node :=
  let cur := current c in
  if found_in l (ts_pid cur) (ts_tgid cur) then l
  else if kmalloc_ok c then
    l ++ [ {| node_pid := ts_pid cur; node_tgid := ts_tgid cur |} ]
  else l.

(** The copy of [current] into [tmp_struct]. *)
Definition snapshot (cur : task_struct) : task_info :=
  {| state := ts_state cur; cpu := ts_cpu cur; prio := ts_prio cur;
     pid := ts_pid cur; tgid := ts_tgid cur;
     nvcsw := ts_nvcsw cur; nivcsw := ts_nivcsw cur |}.

(** The [switch (cmd)] statement of [scull_ioctl], entered once the
    command has passed the screens: the value returned, the module state
    and the caller's memory after the call. *)
Definition scull_switch (c : caller umem) (st : scull_state) (cmd arg : Z)
  : Z * scull_state * umem :=
  let m := user c in
  if cmd =? SCULL_IOCRESET hdr then
    (0, set_quantum st (SCULL_QUANTUM hdr), m)
  else if cmd =? SCULL_IOCSQUANTUM hdr then
    let '(retval, x) := __get_user m arg in
    (retval, set_quantum st x, m)
  else if cmd =? SCULL_IOCTQUANTUM hdr then
    (0, set_quantum st (int_of arg), m)
  else if cmd =? SCULL_IOCGQUANTUM hdr then
    let '(retval, m') := __put_user m (scull_quantum st) arg in
    (retval, st, m')
  else if cmd =? SCULL_IOCQQUANTUM hdr then
    (scull_quantum st, st, m)
  else if cmd =? SCULL_IOCXQUANTUM hdr then
    let tmp := scull_quantum st in
    let '(retval, x) := __get_user m arg in
    let st' := set_quantum st x in
    if retval =? 0 then
      let '(retval', m') := __put_user m tmp arg in
      (retval', st', m')
    else (retval, st', m)
  else if cmd =? SCULL_IOCHQUANTUM hdr then
    let tmp := scull_quantum st in
    (tmp, set_quantum st (int_of arg), m)
  else if cmd =? SCULL_IOCIQUANTUM hdr then
    let tmp_struct := snapshot (current c) in
    let '(uncopied, m') := copy_to_user m arg tmp_struct in
    let retval := int_of uncopied in
    if negb (retval =? 0) then (retval, st, m')
    else (retval, set_list st (record_task c (task_info_node_list st)), m')
  else (- ENOTTY, st, m).

(** [scull_ioctl(filp, cmd, arg)]: the type and number screens, the
    [access_ok] check on [arg], then the switch. *)
Definition scull_ioctl (c : caller umem) (st : scull_state) (cmd arg : Z)
  : Z * scull_state * umem :=
  if negb (_IOC_TYPE cmd =? SCULL_IOC_MAGIC hdr) then (- ENOTTY, st, user c)
  else if _IOC_NR cmd >? SCULL_IOC_MAXNR hdr then (- ENOTTY, st, user c)
  else if negb (access_ok arg (_IOC_SIZE cmd)) then (- EFAULT, st, user c)
  else scull_switch c st cmd arg.

(** The [list_for_each_entry_safe] loop of [scull_cleanup_module]: each
    node is printed with the running [count], unlinked and freed.  The
    result is what was printed and what is left of the list. *)
Fixpoint cleanup_loop (count : Z) (l : list task_info_node)
  : list task_line * list task_info_node :=
  match l with
  | [] => ([], [])
  | node :: rest =>
      let line := (count, node_pid node, node_tgid node) in
      let '(lines, l') := cleanup_loop (int_of (count + 1)) rest in
      (line :: lines, l')
  end.

(** [scull_cleanup_module()]: the lines printed and the module state it
    leaves.  [cdev_del] and [unregister_chrdev_region] act on the device
    registration, which is not part of [scull_state]. *)
Definition scull_cleanup_module (st : scull_state)
  : list task_line * scull_state :=
  let count := 1 in
  let '(lines, l') := cleanup_loop count (task_info_node_list st) in
  (lines, set_list st l').

(** *** Sequences of calls *)

(** One call of the ioctl entry point, with its environment. *)
Record call := Call {
  by_whom : caller umem;
  call_cmd : Z;
  call_arg : Z
}.

Definition step (st : scull_state) (k : call) : scull_state :=
  (scull_ioctl (by_whom k) st (call_cmd k) (call_arg k)).1.2.

Definition run (st : scull_state) (ks : list call) : scull_state :=
  foldl step st ks.

End Driver.

Arguments call : clear implicits.
Arguments Call {umem} _ _ _.
Arguments by_whom {umem} _.
Arguments call_cmd {umem} _.
Arguments call_arg {umem} _.

(** ** Notions the properties are stated with *)

(** The identity of a caller and of a recorded node: (pid, tgid). *)
Definition caller_identity {umem : Type} (k : call umem) : Z * Z :=
  (ts_pid (current (by_whom k)), ts_tgid (current (by_whom k))).

Definition node_identity (n : task_info_node) : Z * Z :=
  (node_pid n, node_tgid n).

(** The elements of a list in the order of their first occurrence: the
    head, then the first occurrences of the rest without the head. *)
Definition first_seen (l : list (Z * Z)) : list (Z * Z) :=
  foldr (λ x acc, x :: filter (λ y, y ≠ x) acc) [] l.

(** Identities numbered 1, 2, 3, ... in list order. *)
Definition numbered (l : list (Z * Z)) : list task_line :=
  imap (λ i x, (1 + Z.of_nat i, x.1, x.2)) l.

(** The teardown report of a module state. *)
Definition report (st : scull_state) : list task_line :=
  (scull_cleanup_module st).1.

Section Notions.

Context (hdr : scull_h) {umem : Type} `{UA : !uaccess umem}.

(** The region check of [scull_ioctl] lets the call through. *)
Definition region_ok (cmd arg : Z) : bool := access_ok arg (_IOC_SIZE cmd).

(** A call that records its caller when the caller is not yet in the
    list: a SCULL_IOCIQUANTUM on a region that passes the check, whose
    snapshot is copied whole, and for which [kmalloc] has a node. *)
Definition records (k : call umem) : bool :=
  (call_cmd k =? SCULL_IOCIQUANTUM hdr)
  && region_ok (call_cmd k) (call_arg k)
  && (int_of (copy_to_user (user (by_whom k)) (call_arg k)
                (snapshot (current (by_whom k)))).1 =? 0)
  && kmalloc_ok (by_whom k).

(** The sequential program [old := QUERY(); TELL(v); return old], as
    the section on testable properties words it: two calls of the
    dispatcher, the first with the argument word [junk] that a command
    without argument arrives with. *)
Definition query_then_tell (c : caller umem) (st : scull_state) (junk v : Z)
  : Z * scull_state * umem :=
  let '(old, st1, m1) := scull_ioctl hdr c st (SCULL_IOCQQUANTUM hdr) junk in
  let c1 := Caller (current c) (kmalloc_ok c) m1 in
  let '(_, st2, m2) := scull_ioctl hdr c1 st1 (SCULL_IOCTQUANTUM hdr) v in
  (old, st2, m2).

End Notions.

(** What one recording does to the identities on the list. *)
Definition add_identity (l : list (Z * Z)) (x : Z * Z) : list (Z * Z) :=
  if decide (x ∈ l) then l else l ++ [x].

(** The identities on the task list of a module state. *)
Definition identities (st : scull_state) : list (Z * Z) :=
  node_identity <$> task_info_node_list st.

(** The labels of the commands whose argument is a reference: SET, GET,
    EXCHANGE and IDENTIFY. *)
Definition by_reference_labels (h : scull_h) : list Z :=
  [ SCULL_IOCSQUANTUM h; SCULL_IOCGQUANTUM h; SCULL_IOCXQUANTUM h;
    SCULL_IOCIQUANTUM h ].

(** The labels of the commands that assign [scull_quantum]: RESET, SET,
    TELL, EXCHANGE and SHIFT. *)
Definition quantum_writers (h : scull_h) : list Z :=
  [ SCULL_IOCRESET h; SCULL_IOCSQUANTUM h; SCULL_IOCTQUANTUM h;
    SCULL_IOCXQUANTUM h; SCULL_IOCHQUANTUM h ].

Section Accessibility.

Context (hdr : scull_h) {umem : Type} `{UA : !uaccess umem}.

(** The region behind the argument of a by-reference command cannot be
    accessed as the command needs it: the region check of the dispatcher
    rejects it, or the transfer the command makes faults: the load of a
    SET, the store of a GET (of the quantum, which is what it stores),
    the load or the store of an EXCHANGE, the copy of an IDENTIFY. *)
Definition inaccessible (c : caller umem) (st : scull_state) (cmd arg : Z)
  : Prop :=
  region_ok cmd arg = false
  ∨ (cmd = SCULL_IOCSQUANTUM hdr ∧ get_user_int (user c) arg = None)
  ∨ (cmd = SCULL_IOCGQUANTUM hdr
     ∧ put_user_int (user c) arg (scull_quantum st) = None)
  ∨ (cmd = SCULL_IOCXQUANTUM hdr
     ∧ (get_user_int (user c) arg = None
        ∨ put_user_int (user c) arg (scull_quantum st) = None))
  ∨ (cmd = SCULL_IOCIQUANTUM hdr
     ∧ int_of (copy_to_user (user c) arg (snapshot (current c))).1 ≠ 0).

End Accessibility.

(** ** A header and a kernel to compute with *)

(** An instance of the header.  [scull.h] is not among the sources: the
    default quantum 4000 is the one of the scenario in the section on
    testable properties of the specification; the command codes are built
    as the kernel's [_IO], [_IOW], [_IOR] and [_IOWR] macros build them,
    on the magic letter 'k', the numbers 0 to 7, an [int] of 4 bytes and
    a [struct task_info] of 40 bytes. *)
Definition scull_h_k : scull_h :=
  {| SCULL_QUANTUM := 4000;
     SCULL_IOC_MAGIC := 107;
     SCULL_IOC_MAXNR := 7;
     SCULL_IOCRESET := _IOC 0 107 0 0;
     SCULL_IOCSQUANTUM := _IOC 1 107 1 4;
     SCULL_IOCTQUANTUM := _IOC 0 107 2 0;
     SCULL_IOCGQUANTUM := _IOC 2 107 3 4;
     SCULL_IOCQQUANTUM := _IOC 0 107 4 0;
     SCULL_IOCXQUANTUM := _IOC 3 107 5 4;
     SCULL_IOCHQUANTUM := _IOC 0 107 6 0;
     SCULL_IOCIQUANTUM := _IOC 2 107 7 40 |}.

(** What a user address holds. *)
Inductive uobj :=
  | UInt (v : Z)
  | UTaskInfo (t : task_info).

(** A mapped user object and whether its page can be written. *)
Record ucell := Ucell {
  writable : bool;
  content : uobj
}.

(** A user address space: the mapped objects by address. *)
Definition user_memory : Type := gmap Z ucell.

(** The end of the user address range on x86-64 with four-level paging. *)
Definition TASK_SIZE_MAX : Z := 2 ^ 47 - 4096.

Definition sizeof_task_info : Z := 40.

(** The range check of x86-64: the region ends at or below
    [TASK_SIZE_MAX]; it does not look at what is mapped there. *)
Definition x86_access_ok (addr size : Z) : bool :=
  (0 <=? addr) && (addr + size <=? TASK_SIZE_MAX).

Definition x86_get_user_int (m : user_memory) (addr : Z) : option Z :=
  match m !! addr with
  | Some {| content := UInt v |} => Some v
  | _ => None
  end.

Definition x86_put_user_int (m : user_memory) (addr v : Z) : option user_memory :=
  match m !! addr with
  | Some {| writable := true; content := UInt _ |} =>
      Some (<[addr := Ucell true (UInt v)]> m)
  | _ => None
  end.

Definition x86_copy_to_user (m : user_memory) (addr : Z) (t : task_info)
  : Z * user_memory :=
  match m !! addr with
  | Some {| writable := true; content := UTaskInfo _ |} =>
      (0, <[addr := Ucell true (UTaskInfo t)]> m)
  | _ => (sizeof_task_info, m)
  end.

#[export] Instance x86_uaccess : uaccess user_memory :=
  {| access_ok := x86_access_ok;
     get_user_int := x86_get_user_int;
     put_user_int := x86_put_user_int;
     copy_to_user := x86_copy_to_user |}.

(** A task with the given pid and tgid. *)
Definition task (p t : Z) : task_struct :=
  {| ts_state := 0; ts_cpu := 0; ts_prio := 120;
     ts_pid := p; ts_tgid := t; ts_nvcsw := 0; ts_nivcsw := 0 |}.

(** An address space with one [int] at 4096, on a read-only page or not. *)
Definition one_int (w : bool) (v : Z) : user_memory :=
  {[ 4096 := Ucell w (UInt v) ]}.

(** An address space with one writable [struct task_info] at 8192. *)
Definition one_task_info : user_memory :=
  {[ 8192 := Ucell true (UTaskInfo (snapshot (task 0 0))) ]}.

(** The address [(unsigned long) -1]. *)
Definition minus_one_ul : Z := 2 ^ 64 - 1.

(** The module state after loading, with the default quantum of
    [scull_h_k], and a state with another quantum. *)
Definition loaded : scull_state := Scull_state 4000 [].

Definition with_quantum (q : Z) : scull_state := Scull_state q [].

(** The calls of the first scenario of the section on testable
    properties, each by a caller with the [int] it passes at 4096. *)
Definition no_arg (cmd : Z) : call user_memory :=
  Call (Caller (task 1 1) true (one_int true 0)) cmd 0.

Definition by_value (cmd v : Z) : call user_memory :=
  Call (Caller (task 1 1) true (one_int true 0)) cmd v.

Definition by_reference (cmd v : Z) : call user_memory :=
  Call (Caller (task 1 1) true (one_int true v)) cmd 4096.

(** The value a call returns in a given state. *)
Definition returned (h : scull_h) (st : scull_state) (k : call user_memory) : Z :=
  (scull_ioctl h (by_whom k) st (call_cmd k) (call_arg k)).1.1.

(** A caller with one [int] in its memory, at 4096. *)
Definition int_caller (w : bool) (v : Z) : caller user_memory :=
  Caller (task 1 1) true (one_int w v).

(** An IDENTIFY of the task (p, t) on the address 8192 of a memory that
    has a writable [struct task_info] there; [node] tells whether kmalloc
    has a node for it. *)
Definition identify_by (p t : Z) (node : bool) : call user_memory :=
  Call (Caller (task p t) node one_task_info) (SCULL_IOCIQUANTUM scull_h_k) 8192.

(** The second scenario of the section on testable properties. *)
Definition four_callers : list (call user_memory) :=
  [ identify_by 10 10 true; identify_by 11 11 true;
    identify_by 10 10 true; identify_by 12 12 true ].

(** A GET code built for a [long]: type 'k' and number 3 as
    SCULL_IOCGQUANTUM, but a size of 8 bytes. *)
Definition get_long_code : Z := _IOC 2 107 3 8.

(** ** Loading and unloading the module *)

(** Device numbers (linux/kdev_t.h): a [dev_t] is 32 bits wide, the minor
    in the low 20. *)
Definition MINORBITS : Z := 20.

Definition MKDEV (ma mi : Z) : Z :=
  Z.lor (Z.shiftl ma MINORBITS) mi mod 2 ^ 32.

Definition MAJOR (dev : Z) : Z := Z.shiftr dev MINORBITS.

(** The module parameters next to [scull_quantum]. *)
Record scull_params := Scull_params {
  scull_major : Z;
  scull_minor : Z
}.

(** What the module asks of the kernel while it loads and unloads, in the
    order of the calls. *)
Inductive kcall :=
  | Register_chrdev_region (from count : Z)
  | Alloc_chrdev_region (baseminor count : Z)
  | Cdev_init
  | Cdev_add (dev count : Z)
  | Cdev_del
  | Unregister_chrdev_region (from count : Z)
  | Printk_task (line : task_line)
  | Printk_cant_get_major (major : Z)
  | Printk_error_adding (result : Z).

(** What the kernel answers while the module loads: the values returned
    by register_chrdev_region, alloc_chrdev_region and cdev_add, and the
    major that alloc_chrdev_region picks when it returns 0. *)
Record init_env := Init_env {
  register_ret : Z;
  alloc_ret : Z;
  alloc_major : Z;
  cdev_add_ret : Z
}.

(** [scull_cleanup_module()] with its calls into the kernel: the device
    number is computed first, the task list is printed and freed, then
    the cdev is deleted and the region released, neither under a
    guard. *)
Definition scull_cleanup_module_calls (p : scull_params) (st : scull_state)
  : list kcall * scull_state :=
  let devno := MKDEV (scull_major p) (scull_minor p) in
  let '(lines, st') := scull_cleanup_module st in
  ((Printk_task <$> lines) ++ [Cdev_del; Unregister_chrdev_region devno 1],
   st').

(** The first block of [scull_init_module()]: a region for the given
    major or, when [scull_major] is 0, a dynamic one.  The result, the
    device number in [dev], the parameters afterwards and the call made.
    alloc_chrdev_region writes [dev] only when it returns 0. *)
Definition get_region (e : init_env) (p : scull_params)
  : Z * Z * scull_params * list kcall :=
  if negb (scull_major p =? 0) then
    let dev := MKDEV (scull_major p) (scull_minor p) in
    (register_ret e, dev, p, [Register_chrdev_region dev 1])
  else
    let dev :=
      if alloc_ret e =? 0 then MKDEV (alloc_major e) (scull_minor p) else 0 in
    (alloc_ret e, dev,
     {| scull_major := int_of (MAJOR dev); scull_minor := scull_minor p |},
     [Alloc_chrdev_region (scull_minor p) 1]).

(** [scull_init_module()]: the value returned, the calls into the kernel,
    and the parameters and the module state it leaves. *)
Definition scull_init_module (e : init_env) (p : scull_params)
    (st : scull_state)
  : Z * list kcall * scull_params * scull_state :=
  let '(result, dev, p1, calls1) := get_region e p in
  if result <? 0 then
    (result, calls1 ++ [Printk_cant_get_major (scull_major p1)], p1, st)
  else
    let result := cdev_add_ret e in
    let calls2 := calls1 ++ [Cdev_init; Cdev_add dev 1] in
    if negb (result =? 0) then
      let '(calls3, st') := scull_cleanup_module_calls p1 st in
      (result, calls2 ++ [Printk_error_adding result] ++ calls3, p1, st')
    else (0, calls2, p1, st).

(** The calls that release what the module holds. *)
Definition is_release (k : kcall) : bool :=
  match k with
  | Cdev_del | Unregister_chrdev_region _ _ => true
  | _ => false
  end.

(** A kernel that grants the region: register_chrdev_region returns 0
    or, for a dynamic major, alloc_chrdev_region returns 0 and picks a
    major of at most 12 bits for a minor of at most 20. *)
Definition region_granted (e : init_env) (p : scull_params) : Prop :=
  if scull_major p =? 0
  then alloc_ret e = 0 ∧ 0 ≤ alloc_major e < 2 ^ 12
       ∧ 0 ≤ scull_minor p < 2 ^ 20
  else 0 ≤ register_ret e.

(** The value the kernel returns for the region: that of
    register_chrdev_region for a given major, of alloc_chrdev_region for
    a dynamic one. *)
Definition region_ret (e : init_env) (p : scull_params) : Z :=
  if scull_major p =? 0 then alloc_ret e else register_ret e.

(** A kernel that picks the major 240 and answers the three calls with
    the given values; the parameters of a module loaded without
    options, and with a major and a minor chosen at load time. *)
Definition kernel_240 (reg alloc add : Z) : init_env :=
  {| register_ret := reg; alloc_ret := alloc; alloc_major := 240;
     cdev_add_ret := add |}.

Definition default_params : scull_params := Scull_params 0 0.

Definition chosen_params : scull_params := Scull_params 61 3.

(** A module state with two recorded tasks. *)
Definition two_tasks : scull_state :=
  Scull_state 4000 [Task_info_node 10 10; Task_info_node 11 11].

(** ** The client program ([src/scull.c]) *)

Definition EXIT_SUCCESS : Z := 0.
Definition EXIT_FAILURE : Z := 1.

(** A [char] as an [int]; [char] is signed on x86. *)
Definition int_of_char (a : ascii) : Z :=
  let n := Z.of_N (N_of_ascii a) in
  if n <? 128 then n else n - 256.

(** [s[0]] of a C string: the first character, or the terminating NUL of
    the empty string. *)
Definition first_char (s : string) : Z :=
  match s with
  | EmptyString => 0
  | String a _ => int_of_char a
  end.

(** What an [int] or a [struct task_info] variable holds: [None] while
    nothing has been stored in it. *)
Definition int_var : Type := option Z.
Definition info_var : Type := option task_info.

(** The third argument of an ioctl call: none, a word passed by value,
    or the address of a local variable, given with what the variable
    holds. *)
Inductive ioctl_arg :=
  | Arg_none
  | Arg_word (v : Z)
  | Arg_int_ptr (q : int_var)
  | Arg_info_ptr (t : info_var).

Definition int_in (a : ioctl_arg) : int_var :=
  match a with Arg_int_ptr q => q | _ => None end.

Definition info_in (a : ioctl_arg) : info_var :=
  match a with Arg_info_ptr t => t | _ => None end.

(** What the client prints and which ioctl calls it makes, in order.
    The first argument of the messages of [parse_arguments] and of
    [usage] is [argv[0]]. *)
Inductive output :=
  | Err_invalid_number_of_arguments (prog : option string)
  | Err_missing_quantum (prog : option string)
  | Err_invalid_command (prog : option string)
  | Out_usage (prog : option string)
  | Sys_ioctl (request : Z) (arg : ioctl_arg)
  | Out_quantum_reset
  | Out_quantum (q : int_var)
  | Out_quantum_set
  | Out_quantum_exchanged (q : int_var)
  | Out_quantum_shifted (q : int_var)
  | Out_task_info (t : info_var)
  | Out_device_opened
  | Out_device_closed
  | Perror (s : string).

(** How [parse_arguments] ends: it returns the command, with
    [g_quantum] as it has left it, or the process exits. *)
Inductive parsed :=
  | Parsed (cmd : Z) (g_quantum : Z)
  | Parse_exit (status : Z).

(** How [do_op] ends: it returns, the process aborts, or, for the
    commands 'p' and 't', it forks children or creates threads that
    call the driver at the same time, which is not modelled further. *)
Inductive op_end :=
  | Op_returns (ret : Z)
  | Op_aborts
  | Op_concurrent.

Definition is_ioctl (o : output) : bool :=
  match o with Sys_ioctl _ _ => true | _ => false end.

Section Client.

Context (hdr : scull_h).

(** [atoi] of the C library. *)
Context (atoi : string → Z).

(** The ioctl system call on the open device, as the client sees it: the
    value returned and what the variable behind the third argument holds
    afterwards. *)
Context (ioctl : Z → ioctl_arg → Z * ioctl_arg).

Definition letter (a : ascii) : Z := int_of_char a.

(** [parse_arguments(argc, argv)], with [argc] the length of [argv] and
    [g_quantum] as it is before the call. *)
Definition parse_arguments (g_quantum : Z) (argv : list string)
  : list output * parsed :=
  let argc := Z.of_nat (length argv) in
  let prog := argv !! 0%nat in
  let '(out, cmd, g_quantum') :=
    if argc <? 2 then
      ([Err_invalid_number_of_arguments prog], -1, g_quantum)
    else
      let cmd := first_char (default EmptyString (argv !! 1%nat)) in
      if (cmd =? letter "S") || (cmd =? letter "T") || (cmd =? letter "H")
         || (cmd =? letter "X") then
        if argc <? 3 then ([Err_missing_quantum prog], -1, g_quantum)
        else ([], cmd, atoi (default EmptyString (argv !! 2%nat)))
      else if (cmd =? letter "R") || (cmd =? letter "G")
              || (cmd =? letter "Q") || (cmd =? letter "h")
              || (cmd =? letter "i") || (cmd =? letter "P")
              || (cmd =? letter "p") || (cmd =? letter "t") then
        ([], cmd, g_quantum)
      else ([Err_invalid_command prog], -1, g_quantum) in
  if (cmd <? 0) || (cmd =? letter "h") then
    (out ++ [Out_usage prog],
     Parse_exit (if cmd =? letter "h" then EXIT_SUCCESS else EXIT_FAILURE))
  else (out, Parsed cmd g_quantum').

(** The end of [do_op]: [perror] when [ret] is not 0, then [return ret]. *)
Definition op_return (out : list output) (ret : Z) : list output * op_end :=
  (out ++ (if negb (ret =? 0) then [Perror "ioctl"] else []), Op_returns ret).

(** [do_op(fd, cmd)], with [g_quantum] as [parse_arguments] has left
    it. *)
Definition do_op (cmd g_quantum : Z) : list output * op_end :=
  if cmd =? letter "R" then
    let a := Arg_none in
    let '(ret, _) := ioctl (SCULL_IOCRESET hdr) a in
    op_return
      (Sys_ioctl (SCULL_IOCRESET hdr) a
       :: if ret =? 0 then [Out_quantum_reset] else []) ret
  else if cmd =? letter "Q" then
    let a := Arg_none in
    let '(q, _) := ioctl (SCULL_IOCQQUANTUM hdr) a in
    op_return [Sys_ioctl (SCULL_IOCQQUANTUM hdr) a; Out_quantum (Some q)] 0
  else if cmd =? letter "G" then
    let a := Arg_int_ptr None in
    let '(ret, a') := ioctl (SCULL_IOCGQUANTUM hdr) a in
    op_return
      (Sys_ioctl (SCULL_IOCGQUANTUM hdr) a
       :: if ret =? 0 then [Out_quantum (int_in a')] else []) ret
  else if cmd =? letter "T" then
    let a := Arg_word g_quantum in
    let '(ret, _) := ioctl (SCULL_IOCTQUANTUM hdr) a in
    op_return
      (Sys_ioctl (SCULL_IOCTQUANTUM hdr) a
       :: if ret =? 0 then [Out_quantum_set] else []) ret
  else if cmd =? letter "S" then
    let a := Arg_int_ptr (Some g_quantum) in
    let '(ret, _) := ioctl (SCULL_IOCSQUANTUM hdr) a in
    op_return
      (Sys_ioctl (SCULL_IOCSQUANTUM hdr) a
       :: if ret =? 0 then [Out_quantum_set] else []) ret
  else if cmd =? letter "X" then
    let a := Arg_int_ptr (Some g_quantum) in
    let '(ret, a') := ioctl (SCULL_IOCXQUANTUM hdr) a in
    op_return
      (Sys_ioctl (SCULL_IOCXQUANTUM hdr) a
       :: if ret =? 0 then [Out_quantum_exchanged (int_in a')] else []) ret
  else if cmd =? letter "H" then
    let a := Arg_word g_quantum in
    let '(q, _) := ioctl (SCULL_IOCHQUANTUM hdr) a in
    op_return
      [Sys_ioctl (SCULL_IOCHQUANTUM hdr) a; Out_quantum_shifted (Some q)] 0
  else if cmd =? letter "i" then
    let a := Arg_info_ptr None in
    let '(_, a') := ioctl (SCULL_IOCIQUANTUM hdr) a in
    op_return
      [Sys_ioctl (SCULL_IOCIQUANTUM hdr) a; Out_task_info (info_in a')] 0
  else if (cmd =? letter "p") || (cmd =? letter "t") then
    ([], Op_concurrent)
  else ([], Op_aborts).

(** How the process ends: with an exit status, by abort, or in the
    concurrent part that is not modelled. *)
Inductive process_end :=
  | Exits (status : Z)
  | Aborts
  | Concurrent.

(** [main(argc, argv)], given what [open] and [close] return. *)
Definition main (open_ret close_ret : Z) (argv : list string)
  : list output * process_end :=
  match parse_arguments 0 argv with
  | (out, Parse_exit status) => (out, Exits status)
  | (out, Parsed cmd g_quantum) =>
      let fd := open_ret in
      if fd <? 0 then (out ++ [Perror "cdev open"], Exits EXIT_FAILURE)
      else
        let out1 := out ++ [Out_device_opened] in
        match do_op cmd g_quantum with
        | (out2, Op_aborts) => (out1 ++ out2, Aborts)
        | (out2, Op_concurrent) => (out1 ++ out2, Concurrent)
        | (out2, Op_returns ret) =>
            if negb (close_ret =? 0) then
              (out1 ++ out2 ++ [Perror "cdev close"], Exits EXIT_FAILURE)
            else
              (out1 ++ out2 ++ [Out_device_closed],
               Exits (if negb (ret =? 0) then EXIT_FAILURE else EXIT_SUCCESS))
        end
  end.

End Client.

(** The letters [parse_arguments] lets through. *)
Definition accepted_letters : list Z :=
  int_of_char <$>
    [ "S"; "T"; "H"; "X"; "R"; "G"; "Q"; "i"; "P"; "p"; "t" ]%char.

(** The letters that [do_op] has a case for. *)
Definition handled_letters : list Z :=
  int_of_char <$>
    [ "R"; "Q"; "G"; "T"; "S"; "X"; "H"; "i"; "p"; "t" ]%char.

(** An [atoi] for decimal digits without sign, and an ioctl that fails
    with -1 whatever is asked. *)
Fixpoint digits (acc : Z) (s : string) : Z :=
  match s with
  | EmptyString => acc
  | String a rest =>
      let d := Z.of_N (N_of_ascii a) - 48 in
      if (0 <=? d) && (d <=? 9) then digits (10 * acc + d) rest else acc
  end.

Definition atoi_digits (s : string) : Z := digits 0 s.

Definition failing_ioctl (request : Z) (a : ioctl_arg) : Z * ioctl_arg :=
  (-1, a).

(** An ioctl that succeeds and stores 8192 or a snapshot. *)
Definition obliging_ioctl (request : Z) (a : ioctl_arg) : Z * ioctl_arg :=
  match a with
  | Arg_int_ptr _ => (0, Arg_int_ptr (Some 8192))
  | Arg_info_ptr _ => (0, Arg_info_ptr (Some (snapshot (task 10 10))))
  | _ => (0, a)
  end.

(** * Properties *)

(** ** C integers *)

Lemma int_of_small (x : Z) : - 2 ^ 31 ≤ x < 2 ^ 31 → int_of x = x.
Proof.
  intros Hx. unfold int_of.
  rewrite Z.mod_small by lia. lia.
Qed.

Lemma int_of_range (x : Z) : - 2 ^ 31 ≤ int_of x < 2 ^ 31.
Proof.
  unfold int_of.
  pose proof (Z.mod_pos_bound (x + 2 ^ 31) (2 ^ 32)) as Hb. lia.
Qed.

Lemma int_of_congruent (x : Z) : (int_of x - x) mod 2 ^ 32 = 0.
Proof.
  unfold int_of.
  rewrite (Z.mod_eq (x + 2 ^ 31) (2 ^ 32)) by lia.
  replace (x + 2 ^ 31 - 2 ^ 32 * ((x + 2 ^ 31) / 2 ^ 32) - 2 ^ 31 - x)
    with (- ((x + 2 ^ 31) / 2 ^ 32) * 2 ^ 32) by ring.
  apply Z.mod_mul. lia.
Qed.

(** ** The example header *)

Lemma scull_h_k_ok : header_ok scull_h_k.
Proof.
  split.
  - apply (bool_decide_unpack _). vm_compute. exact I.
  - repeat constructor.
Qed.

Section Dispatcher.

Context (hdr : scull_h) {umem : Type} `{UA : !uaccess umem}.

Implicit Types (c : caller umem) (st : scull_state) (cmd arg : Z).

(** *** The screens and the region check *)

Lemma scull_ioctl_unscreened c st cmd arg :
  screened hdr cmd = false →
  scull_ioctl hdr c st cmd arg = (- ENOTTY, st, user c).
Proof.
  unfold screened, scull_ioctl. intros Hs.
  destruct (_IOC_TYPE cmd =? SCULL_IOC_MAGIC hdr); simpl in *; [| done].
  rewrite Z.gtb_ltb. rewrite Z.leb_antisym in Hs.
  destruct (SCULL_IOC_MAXNR hdr <? _IOC_NR cmd); simpl in *; done.
Qed.

Lemma scull_ioctl_screened c st cmd arg :
  screened hdr cmd = true →
  scull_ioctl hdr c st cmd arg =
    if region_ok cmd arg then scull_switch hdr c st cmd arg
    else (- EFAULT, st, user c).
Proof.
  unfold screened, scull_ioctl, region_ok. intros Hs.
  destruct (_IOC_TYPE cmd =? SCULL_IOC_MAGIC hdr); simpl in *; [| done].
  rewrite Z.gtb_ltb. rewrite Z.leb_antisym in Hs.
  destruct (SCULL_IOC_MAXNR hdr <? _IOC_NR cmd); simpl in *; [done |].
  by destruct (access_ok arg (_IOC_SIZE cmd)).
Qed.

Lemma label_screened cmd :
  header_ok hdr → cmd ∈ case_labels hdr → screened hdr cmd = true.
Proof.
  intros [_ Hall] Hin. by apply (proj1 (Forall_forall _ _) Hall).
Qed.

(** A call with one of the eight labels, on a header that is in order. *)
Lemma scull_ioctl_label c st cmd arg :
  header_ok hdr → cmd ∈ case_labels hdr →
  scull_ioctl hdr c st cmd arg =
    if region_ok cmd arg then scull_switch hdr c st cmd arg
    else (- EFAULT, st, user c).
Proof.
  intros Hok Hin. apply scull_ioctl_screened. by apply label_screened.
Qed.

(** *** The cases of the switch *)

(** The labels are pairwise different: each comparison of the switch
    with another label fails. *)
Ltac distinct_labels H :=
  destruct H as [H _]; unfold case_labels in H;
  rewrite !NoDup_cons, !not_elem_of_cons in H; destruct_and!.

Ltac pick_case :=
  unfold scull_switch;
  repeat match goal with
    | |- context [?a =? ?f hdr] =>
        destruct (Z.eqb_spec a (f hdr)); try congruence
    end.

Lemma switch_reset c st arg :
  header_ok hdr →
  scull_switch hdr c st (SCULL_IOCRESET hdr) arg =
    (0, set_quantum st (SCULL_QUANTUM hdr), user c).
Proof. intros H. distinct_labels H. by pick_case. Qed.

Lemma switch_set c st arg :
  header_ok hdr →
  scull_switch hdr c st (SCULL_IOCSQUANTUM hdr) arg =
    ((__get_user (user c) arg).1,
     set_quantum st (__get_user (user c) arg).2, user c).
Proof.
  intros H. distinct_labels H. pick_case.
  by destruct (__get_user (user c) arg).
Qed.

Lemma switch_tell c st arg :
  header_ok hdr →
  scull_switch hdr c st (SCULL_IOCTQUANTUM hdr) arg =
    (0, set_quantum st (int_of arg), user c).
Proof. intros H. distinct_labels H. by pick_case. Qed.

Lemma switch_get c st arg :
  header_ok hdr →
  scull_switch hdr c st (SCULL_IOCGQUANTUM hdr) arg =
    ((__put_user (user c) (scull_quantum st) arg).1, st,
     (__put_user (user c) (scull_quantum st) arg).2).
Proof.
  intros H. distinct_labels H. pick_case.
  by destruct (__put_user (user c) (scull_quantum st) arg).
Qed.

Lemma switch_query c st arg :
  header_ok hdr →
  scull_switch hdr c st (SCULL_IOCQQUANTUM hdr) arg =
    (scull_quantum st, st, user c).
Proof. intros H. distinct_labels H. by pick_case. Qed.

Lemma switch_exchange c st arg :
  header_ok hdr →
  scull_switch hdr c st (SCULL_IOCXQUANTUM hdr) arg =
    match get_user_int (user c) arg with
    | Some v =>
        match put_user_int (user c) arg (scull_quantum st) with
        | Some m' => (0, set_quantum st v, m')
        | None => (- EFAULT, set_quantum st v, user c)
        end
    | None => (- EFAULT, set_quantum st 0, user c)
    end.
Proof.
  intros H. distinct_labels H. pick_case.
  unfold __get_user, __put_user.
  destruct (get_user_int (user c) arg); simpl; [| done].
  by destruct (put_user_int (user c) arg (scull_quantum st)).
Qed.

Lemma switch_shift c st arg :
  header_ok hdr →
  scull_switch hdr c st (SCULL_IOCHQUANTUM hdr) arg =
    (scull_quantum st, set_quantum st (int_of arg), user c).
Proof. intros H. distinct_labels H. by pick_case. Qed.

Lemma switch_identify c st arg :
  header_ok hdr →
  scull_switch hdr c st (SCULL_IOCIQUANTUM hdr) arg =
    let r := copy_to_user (user c) arg (snapshot (current c)) in
    if int_of r.1 =? 0 then
      (int_of r.1, set_list st (record_task c (task_info_node_list st)), r.2)
    else (int_of r.1, st, r.2).
Proof.
  intros H. distinct_labels H. pick_case.
  destruct (copy_to_user (user c) arg (snapshot (current c)))
    as [uncopied m'].
  simpl. by destruct (int_of uncopied =? 0).
Qed.

End Dispatcher.

(** ** The quantum commands *)

Section Quantum.

Context (hdr : scull_h) {umem : Type} `{UA : !uaccess umem}.

Implicit Types (c : caller umem) (st : scull_state) (cmd arg : Z).

Ltac in_labels :=
  unfold by_reference_labels, case_labels;
  rewrite ?elem_of_cons; tauto.

Lemma by_reference_label cmd :
  cmd ∈ by_reference_labels hdr → cmd ∈ case_labels hdr.
Proof. in_labels. Qed.

(** For each command with a by-reference argument, when the region check
    of the dispatcher rejects the referenced region, the call returns
    -EFAULT and nothing has changed. *)
Lemma rejected_region_no_change c st cmd arg :
  header_ok hdr →
  cmd ∈ by_reference_labels hdr →
  region_ok cmd arg = false →
  scull_ioctl hdr c st cmd arg = (- EFAULT, st, user c).
Proof.
  intros Hok Hin Hreg.
  rewrite scull_ioctl_label by auto using by_reference_label.
  by rewrite Hreg.
Qed.

(** A GET whose store faults also fails with -EFAULT and changes
    nothing. *)
Lemma get_fault_no_change c st arg :
  header_ok hdr →
  put_user_int (user c) arg (scull_quantum st) = None →
  scull_ioctl hdr c st (SCULL_IOCGQUANTUM hdr) arg = (- EFAULT, st, user c).
Proof.
  intros Hok Hput.
  rewrite scull_ioctl_label by (auto; in_labels).
  destruct (region_ok _ arg); [| done].
  rewrite switch_get by done. unfold __put_user. by rewrite Hput.
Qed.

Lemma minus_EFAULT_nonzero : - EFAULT ≠ 0.
Proof. discriminate. Qed.

Ltac fin :=
  repeat split;
  first [ exact minus_EFAULT_nonzero
        | done
        | intros;
          repeat match goal with
            | H : _ = _ ∨ _ = _ |- _ => destruct H
            end;
          congruence ].

(** C1, as amended: for each command with a by-reference argument (SET,
    GET, EXCHANGE, IDENTIFY), when the referenced region is
    inaccessible, whether the region check access_ok(arg, _IOC_SIZE(cmd))
    rejects it or the transfer itself faults, the call fails and the
    task list is as before.  When the region check rejects the region,
    and for GET in every case, the call returns -EFAULT and nothing has
    changed: the quantum, the task list and the caller's memory are as
    before.  SET and EXCHANGE return -EFAULT and leave the caller's
    memory untouched; IDENTIFY leaves the quantum and the task list as
    before.  The quantum after a SET or an EXCHANGE whose transfer
    faults, and the value returned by an IDENTIFY whose copy faults, are
    not part of the statement. *)
Theorem inaccessible_region_fails_safely c st cmd arg :
  header_ok hdr →
  cmd ∈ by_reference_labels hdr →
  inaccessible hdr c st cmd arg →
  let r := scull_ioctl hdr c st cmd arg in
  r.1.1 ≠ 0
  ∧ task_info_node_list r.1.2 = task_info_node_list st
  ∧ (region_ok cmd arg = false → r = (- EFAULT, st, user c))
  ∧ (cmd = SCULL_IOCGQUANTUM hdr → r = (- EFAULT, st, user c))
  ∧ (cmd = SCULL_IOCSQUANTUM hdr ∨ cmd = SCULL_IOCXQUANTUM hdr →
     r.1.1 = - EFAULT ∧ r.2 = user c)
  ∧ (cmd = SCULL_IOCIQUANTUM hdr → r.1.2 = st).
Proof.
  intros Hok Hin Hacc.
  pose proof Hok as [Hnd _]. unfold case_labels in Hnd.
  rewrite !NoDup_cons, !not_elem_of_cons in Hnd. destruct_and!.
  simpl. rewrite scull_ioctl_label by auto using by_reference_label.
  destruct (region_ok cmd arg) eqn:Hreg.
  2: { simpl. fin. }
  unfold by_reference_labels in Hin.
  rewrite !elem_of_cons, elem_of_nil in Hin.
  unfold inaccessible in Hacc. rewrite Hreg in Hacc.
  destruct Hin as [-> | [-> | [-> | [-> | []]]]];
    destruct Hacc as [? | [[? Hs] | [[? Hg] | [[? Hx] | [? Hi]]]]];
    try congruence.
  - (* SET, the load faults *)
    rewrite switch_set by done. unfold __get_user. rewrite Hs. simpl.
    fin.
  - (* GET, the store faults *)
    rewrite switch_get by done. unfold __put_user. rewrite Hg. simpl.
    fin.
  - (* EXCHANGE, the load or the store faults *)
    rewrite switch_exchange by done.
    destruct (get_user_int (user c) arg) as [v |] eqn:Hget.
    + destruct Hx as [? | Hput]; [done |]. rewrite Hput. simpl.
      fin.
    + simpl. fin.
  - (* IDENTIFY, the copy faults *)
    rewrite switch_identify by done. simpl.
    destruct (Z.eqb_spec
                (int_of (copy_to_user (user c) arg (snapshot (current c))).1)
                0) as [? | _]; [done |].
    simpl. fin.
Qed.

(** C4: a successful EXCHANGE (one that returns 0) through a reference
    that holds [v] leaves the quantum equal to [v], and the caller's
    memory is the one in which the former quantum has been stored
    through that reference; the task list is untouched. *)
Theorem exchange_swaps c st arg v st' m' :
  header_ok hdr →
  get_user_int (user c) arg = Some v →
  scull_ioctl hdr c st (SCULL_IOCXQUANTUM hdr) arg = (0, st', m') →
  scull_quantum st' = v
  ∧ put_user_int (user c) arg (scull_quantum st) = Some m'
  ∧ task_info_node_list st' = task_info_node_list st.
Proof.
  intros Hok Hget.
  rewrite scull_ioctl_label by (auto; in_labels).
  destruct (region_ok _ arg); [| discriminate].
  rewrite switch_exchange, Hget by done.
  destruct (put_user_int (user c) arg (scull_quantum st)) as [m1|];
    [| discriminate].
  intros [= <- <-]. done.
Qed.

(** C5, as amended: when the region check lets through the SHIFT and
    the TELL of [v] and the QUERY, SHIFT(v) does what the sequential
    program old := QUERY(); TELL(v); return old does: the same value
    returned, the quantum held before the call, and the same state left,
    with the quantum equal to [v] converted to int. *)
Theorem shift_is_query_then_tell c st junk v :
  header_ok hdr →
  region_ok (SCULL_IOCHQUANTUM hdr) v = true →
  region_ok (SCULL_IOCTQUANTUM hdr) v = true →
  region_ok (SCULL_IOCQQUANTUM hdr) junk = true →
  scull_ioctl hdr c st (SCULL_IOCHQUANTUM hdr) v
    = query_then_tell hdr c st junk v
  ∧ (scull_ioctl hdr c st (SCULL_IOCHQUANTUM hdr) v).1.1 = scull_quantum st
  ∧ scull_quantum (scull_ioctl hdr c st (SCULL_IOCHQUANTUM hdr) v).1.2
    = int_of v.
Proof.
  intros Hok HH HT HQ. unfold query_then_tell.
  rewrite !scull_ioctl_label by (auto; in_labels).
  rewrite HH, HQ, switch_shift, switch_query by done.
  rewrite scull_ioctl_label by (auto; in_labels).
  rewrite HT, switch_tell by done.
  done.
Qed.

(** C6, as amended: after any finite sequence of calls from any state, a
    RESET and then a QUERY that both pass the region check yield the
    default constant; and a further RESET that passes the check changes
    nothing. *)
Theorem reset_then_query c1 c2 c3 st ks a1 a2 a3 :
  header_ok hdr →
  region_ok (SCULL_IOCRESET hdr) a1 = true →
  region_ok (SCULL_IOCQQUANTUM hdr) a2 = true →
  region_ok (SCULL_IOCRESET hdr) a3 = true →
  let r1 := scull_ioctl hdr c1 (run hdr st ks) (SCULL_IOCRESET hdr) a1 in
  r1.1.1 = 0
  ∧ (scull_ioctl hdr c2 r1.1.2 (SCULL_IOCQQUANTUM hdr) a2).1.1
    = SCULL_QUANTUM hdr
  ∧ scull_ioctl hdr c3 r1.1.2 (SCULL_IOCRESET hdr) a3
    = (0, r1.1.2, user c3).
Proof.
  intros Hok H1 H2 H3. simpl.
  rewrite !scull_ioctl_label by (auto; in_labels).
  rewrite H1, H2, H3.
  rewrite !switch_reset, switch_query by done.
  done.
Qed.

(** A command that is not one of the eight labels never changes the
    module state or the caller's memory; it fails with -ENOTTY or, when
    it passes the screens and its region is rejected, with -EFAULT. *)
Lemma unmatched_no_mutation c st cmd arg :
  cmd ∉ case_labels hdr →
  scull_ioctl hdr c st cmd arg =
    (if screened hdr cmd && negb (region_ok cmd arg)
     then - EFAULT else - ENOTTY, st, user c).
Proof.
  intros Hnot.
  destruct (screened hdr cmd) eqn:Hs; simpl.
  - rewrite scull_ioctl_screened by done.
    destruct (region_ok cmd arg); simpl; [| done].
    unfold case_labels in Hnot. rewrite !not_elem_of_cons in Hnot.
    destruct_and!. unfold scull_switch.
    repeat match goal with
      | |- context [cmd =? ?x] => destruct (Z.eqb_spec cmd x); [done |]
      end.
    done.
  - by apply scull_ioctl_unscreened.
Qed.

(** C8: when kmalloc fails in an IDENTIFY whose snapshot was copied
    whole, the call returns 0, the caller's memory holds the snapshot,
    and the module state, the task list included, is as before. *)
Theorem identify_survives_kmalloc_failure c st arg m' :
  header_ok hdr →
  region_ok (SCULL_IOCIQUANTUM hdr) arg = true →
  copy_to_user (user c) arg (snapshot (current c)) = (0, m') →
  kmalloc_ok c = false →
  scull_ioctl hdr c st (SCULL_IOCIQUANTUM hdr) arg = (0, st, m').
Proof.
  intros Hok Hreg Hcopy Hk.
  rewrite scull_ioctl_label by (auto; in_labels).
  rewrite Hreg, switch_identify, Hcopy by done. simpl.
  unfold record_task. rewrite Hk.
  destruct (found_in _ _ _); by destruct st.
Qed.

(** C10, as amended: a TELL or a SHIFT whose argument word [a] passes
    the region check leaves the quantum equal to [a] converted to int:
    congruent to [a] modulo 2^32 and within the range of a signed
    32-bit integer; a TELL or a SHIFT whose argument word the region
    check rejects returns -EFAULT and leaves the quantum, with the rest
    of the module state and the caller's memory, as before. *)
Theorem tell_shift_store_low_bits c st cmd a :
  header_ok hdr →
  cmd = SCULL_IOCTQUANTUM hdr ∨ cmd = SCULL_IOCHQUANTUM hdr →
  let r := scull_ioctl hdr c st cmd a in
  let q' := scull_quantum r.1.2 in
  (region_ok cmd a = true →
   q' = int_of a ∧ (q' - a) mod 2 ^ 32 = 0 ∧ - 2 ^ 31 ≤ q' < 2 ^ 31)
  ∧ (region_ok cmd a = false → r = (- EFAULT, st, user c)).
Proof.
  intros Hok Hcmd r q'. split; intros Hreg.
  - assert (q' = int_of a) as ->.
    { subst q' r. destruct Hcmd as [-> | ->];
        rewrite scull_ioctl_label by (auto; in_labels);
        rewrite Hreg;
        [rewrite switch_tell by done | rewrite switch_shift by done]; done. }
    split; [done |]. split; [apply int_of_congruent | apply int_of_range].
  - subst r. destruct Hcmd as [-> | ->];
      rewrite scull_ioctl_label by (auto; in_labels);
      by rewrite Hreg.
Qed.

End Quantum.

(** ** The task list *)

Section First_seen.

Implicit Types (l acc : list (Z * Z)) (x : Z * Z).

Lemma elem_of_first_seen l x : x ∈ first_seen l ↔ x ∈ l.
Proof.
  induction l as [| y l IH]; simpl; [done |].
  rewrite !elem_of_cons, list_elem_of_filter, IH.
  destruct (decide (x = y)); naive_solver.
Qed.

Lemma NoDup_first_seen l : NoDup (first_seen l).
Proof.
  induction l as [| y l IH]; simpl; [constructor |].
  apply NoDup_cons. split.
  - rewrite list_elem_of_filter. naive_solver.
  - by apply NoDup_filter.
Qed.

(** Recording the elements of [l] one after the other appends to [acc]
    the first occurrences in [l] of what [acc] does not hold. *)
Lemma foldl_add_identity l : ∀ acc,
  foldl add_identity acc l = acc ++ filter (λ y, y ∉ acc) (first_seen l).
Proof.
  induction l as [| x l IH]; intros acc; simpl.
  - by rewrite filter_nil, app_nil_r.
  - rewrite IH, filter_cons, list_filter_filter. unfold add_identity.
    destruct (decide (x ∈ acc)) as [Hin | Hnotin].
    + rewrite decide_False by naive_solver.
      f_equal. apply list_filter_iff. intros y. naive_solver.
    + rewrite decide_True by done.
      rewrite <- app_assoc. simpl. do 2 f_equal.
      apply list_filter_iff. intros y.
      rewrite elem_of_app, list_elem_of_singleton. naive_solver.
Qed.

Lemma foldl_add_identity_nil l : foldl add_identity [] l = first_seen l.
Proof.
  rewrite foldl_add_identity. simpl.
  induction (first_seen l) as [| y k IH]; [done |].
  rewrite filter_cons, decide_True by apply not_elem_of_nil.
  by rewrite IH.
Qed.

Lemma NoDup_add_identity l x : NoDup l → NoDup (add_identity l x).
Proof.
  intros Hl. unfold add_identity. destruct (decide (x ∈ l)); [done |].
  apply NoDup_app. split; [done |]. split; [| apply NoDup_singleton].
  intros y Hy. rewrite list_elem_of_singleton. naive_solver.
Qed.

(** The number of first occurrences is the number of distinct elements. *)
Lemma length_first_seen l :
  length (first_seen l) = size (list_to_set l : gset (Z * Z)).
Proof.
  rewrite <- (size_list_to_set (C := gset (Z * Z)) (first_seen l))
    by apply NoDup_first_seen.
  f_equal. apply set_eq. intros x.
  by rewrite !elem_of_list_to_set, elem_of_first_seen.
Qed.

End First_seen.

Section Teardown.

Implicit Types (l : list task_info_node) (count : Z).

Lemma cleanup_loop_rest l : ∀ count, (cleanup_loop count l).2 = [].
Proof.
  induction l as [| n l IH]; intros count; simpl; [done |].
  specialize (IH (int_of (count + 1))).
  by destruct (cleanup_loop (int_of (count + 1)) l).
Qed.

Lemma cleanup_loop_length l : ∀ count,
  length (cleanup_loop count l).1 = length l.
Proof.
  induction l as [| n l IH]; intros count; simpl; [done |].
  specialize (IH (int_of (count + 1))).
  destruct (cleanup_loop (int_of (count + 1)) l). simpl in *. lia.
Qed.

Lemma cleanup_loop_cons count n l :
  (cleanup_loop count (n :: l)).1
    = (count, node_pid n, node_tgid n)
      :: (cleanup_loop (int_of (count + 1)) l).1.
Proof. simpl. by destruct (cleanup_loop (int_of (count + 1)) l). Qed.

(** While the counter stays an int, the lines carry the numbers
    [count], [count + 1], ... *)
Lemma cleanup_loop_lines l : ∀ count,
  - 2 ^ 31 ≤ count →
  count + Z.of_nat (length l) ≤ 2 ^ 31 →
  (cleanup_loop count l).1
    = imap (λ i n, (count + Z.of_nat i, node_pid n, node_tgid n)) l.
Proof.
  induction l as [| n l IH]; intros count Hlo Hhi; [done |].
  rewrite cleanup_loop_cons, imap_cons.
  f_equal; [by rewrite Z.add_0_r |].
  destruct l as [| n' l]; [done |].
  rewrite int_of_small by (simpl length in Hhi; lia).
  rewrite IH by (simpl length in *; lia).
  apply imap_ext. intros i x _. simpl. do 2 f_equal. lia.
Qed.

Lemma report_length st :
  length (report st) = length (task_info_node_list st).
Proof.
  unfold report, scull_cleanup_module.
  pose proof (cleanup_loop_length (task_info_node_list st) 1) as H.
  by destruct (cleanup_loop 1 (task_info_node_list st)).
Qed.

Lemma report_numbered st :
  Z.of_nat (length (task_info_node_list st)) < 2 ^ 31 →
  report st = numbered (identities st).
Proof.
  intros Hlen. unfold report, scull_cleanup_module, numbered, identities.
  pose proof (cleanup_loop_lines (task_info_node_list st) 1) as H.
  destruct (cleanup_loop 1 (task_info_node_list st)) as [lines rest].
  simpl in *. rewrite H by lia. by rewrite imap_fmap.
Qed.

(** C9: the teardown of an empty task list prints nothing and leaves the
    module state as it is; after a teardown the task list is empty; so a
    second teardown prints nothing and changes nothing. *)
Theorem drain_empty_and_twice q st :
  scull_cleanup_module (Scull_state q []) = ([], Scull_state q [])
  ∧ task_info_node_list (scull_cleanup_module st).2 = []
  ∧ scull_cleanup_module (scull_cleanup_module st).2
    = ([], (scull_cleanup_module st).2).
Proof.
  split; [done |].
  unfold scull_cleanup_module.
  pose proof (cleanup_loop_rest (task_info_node_list st) 1) as H.
  destruct (cleanup_loop 1 (task_info_node_list st)) as [lines rest].
  simpl in *. subst rest. done.
Qed.

End Teardown.

Section Registry.

Context (hdr : scull_h) {umem : Type} `{UA : !uaccess umem}.

Implicit Types (c : caller umem) (st : scull_state) (k : call umem).

Lemma found_in_spec (l : list task_info_node) (p t : Z) :
  found_in l p t = true ↔ (p, t) ∈ node_identity <$> l.
Proof.
  induction l as [| n l IH]; simpl.
  - split; [done |]. by intros ?%elem_of_nil.
  - rewrite elem_of_cons. unfold node_identity at 1.
    destruct (Z.eqb_spec (node_pid n) p), (Z.eqb_spec (node_tgid n) t);
      simpl; rewrite ?IH; naive_solver.
Qed.

(** The critical section adds the caller's identity when it is new and
    kmalloc has a node. *)
Lemma record_task_identities c (l : list task_info_node) :
  node_identity <$> record_task c l =
    if kmalloc_ok c
    then add_identity (node_identity <$> l)
           (ts_pid (current c), ts_tgid (current c))
    else node_identity <$> l.
Proof.
  unfold record_task, add_identity.
  pose proof (found_in_spec l (ts_pid (current c)) (ts_tgid (current c)))
    as Hf.
  destruct (found_in l _ _).
  - rewrite decide_True by by apply Hf. by destruct (kmalloc_ok c).
  - rewrite decide_False by (intros Hin; by apply Hf in Hin).
    destruct (kmalloc_ok c); [| done].
    by rewrite fmap_app.
Qed.

(** Only SCULL_IOCIQUANTUM touches the task list. *)
Lemma other_commands_keep_list c st cmd arg :
  cmd ≠ SCULL_IOCIQUANTUM hdr →
  task_info_node_list (scull_ioctl hdr c st cmd arg).1.2
    = task_info_node_list st.
Proof.
  intros Hne. unfold scull_ioctl, scull_switch, __get_user, __put_user.
  repeat match goal with
    | |- context [if ?b then _ else _] => destruct b eqn:?; simpl; try done
    | |- context [match ?o with Some _ => _ | None => _ end] =>
        destruct o; simpl; try done
    | |- context [let '(_, _) := ?p in _] => destruct p; simpl; try done
    end.
  exfalso. apply Hne. by apply Z.eqb_eq.
Qed.

(** What one call does to the identities on the list. *)
Lemma step_identities st k :
  header_ok hdr →
  identities (step hdr st k) =
    if records hdr k then add_identity (identities st) (caller_identity k)
    else identities st.
Proof.
  intros Hok. unfold step, identities, records.
  destruct (Z.eqb_spec (call_cmd k) (SCULL_IOCIQUANTUM hdr)) as [-> | Hne];
    simpl; [| by rewrite other_commands_keep_list].
  rewrite scull_ioctl_label
    by (auto; unfold case_labels; rewrite ?elem_of_cons; tauto).
  destruct (region_ok _ _); simpl; [| done].
  rewrite switch_identify by done. simpl.
  destruct (int_of _ =? 0); simpl; [| done].
  rewrite record_task_identities.
  by destruct (kmalloc_ok (by_whom k)).
Qed.

(** The identities on the list after a sequence of calls: those of the
    recording calls, added one after the other. *)
Lemma run_identities ks : ∀ st,
  header_ok hdr →
  identities (run hdr st ks) =
    foldl add_identity (identities st)
      (caller_identity <$> filter (λ k, records hdr k) ks).
Proof.
  induction ks as [| k ks IH]; intros st Hok; [done |].
  unfold run in *. simpl. rewrite IH, step_identities by done.
  rewrite filter_cons.
  destruct (decide (records hdr k)) as [Hr | Hr];
    destruct (records hdr k); simpl in *; done.
Qed.

(** From the empty list of a freshly loaded module. *)
Lemma run_identities_fresh q ks :
  header_ok hdr →
  identities (run hdr (Scull_state q []) ks) =
    first_seen (caller_identity <$> filter (λ k, records hdr k) ks).
Proof.
  intros Hok. rewrite run_identities by done.
  apply foldl_add_identity_nil.
Qed.

(** No sequence of calls, whatever the commands and whichever of them
    fail, puts an identity on the list twice. *)
Lemma run_no_duplicates ks : ∀ st,
  header_ok hdr → NoDup (identities st) → NoDup (identities (run hdr st ks)).
Proof.
  induction ks as [| k ks IH]; intros st Hok Hnd; [done |].
  unfold run in *. simpl. apply IH; [done |].
  rewrite step_identities by done.
  destruct (records hdr k); [by apply NoDup_add_identity | done].
Qed.

Lemma filter_records_all ks :
  Forall (λ k, records hdr k = true) ks →
  filter (λ k, records hdr k) ks = ks.
Proof.
  induction 1 as [| k ks Hk _ IH]; [done |].
  rewrite filter_cons, decide_True by (by rewrite Hk). by rewrite IH.
Qed.

(** C2, as amended: the task list never holds an identity twice, whatever
    the calls; and after a sequence of IDENTIFY calls, made on a freshly
    loaded module, that all pass the region check, copy their snapshot
    whole and find kmalloc with a node, the teardown report has as many
    entries as there are distinct caller identities. *)
Theorem registry_uniqueness q ks :
  header_ok hdr →
  NoDup (identities (run hdr (Scull_state q []) ks))
  ∧ (Forall (λ k, records hdr k = true) ks →
     length (report (run hdr (Scull_state q []) ks))
       = size (list_to_set (caller_identity <$> ks) : gset (Z * Z))).
Proof.
  intros Hok. split.
  - apply run_no_duplicates; [done | constructor].
  - intros Hall.
    rewrite report_length, <- (length_fmap node_identity).
    fold (identities (run hdr (Scull_state q []) ks)).
    rewrite run_identities_fresh, filter_records_all by done.
    apply length_first_seen.
Qed.

(** C3: the teardown report of a module that was loaded with an empty
    list lists the identities of the recording calls (an IDENTIFY that
    passes the region check, copies its snapshot whole and finds kmalloc
    with a node) in the order of their first occurrence, whatever else
    was called in between and however often they called again, numbered
    1, 2, 3, ...; the counter being an int, for a list of fewer than 2^31
    nodes. *)
Theorem report_in_first_recording_order q ks :
  header_ok hdr →
  Z.of_nat (length (task_info_node_list (run hdr (Scull_state q []) ks)))
    < 2 ^ 31 →
  report (run hdr (Scull_state q []) ks)
    = numbered
        (first_seen (caller_identity <$> filter (λ k, records hdr k) ks)).
Proof.
  intros Hok Hlen.
  rewrite report_numbered by done.
  by rewrite run_identities_fresh.
Qed.

End Registry.

(** ** The dispatcher on the example header and the x86-64 range check *)

Lemma inaccessible_region_fails_safely_witness :
  inaccessible scull_h_k (int_caller false 7) loaded
    (SCULL_IOCXQUANTUM scull_h_k) 4096
  ∧ (scull_ioctl scull_h_k (int_caller false 7) loaded
       (SCULL_IOCXQUANTUM scull_h_k) 4096).1.1 = - EFAULT
  ∧ task_info_node_list
      (scull_ioctl scull_h_k (int_caller false 7) loaded
         (SCULL_IOCXQUANTUM scull_h_k) 4096).1.2 = []
  ∧ (scull_ioctl scull_h_k (int_caller false 7) loaded
       (SCULL_IOCXQUANTUM scull_h_k) 4096).2 = one_int false 7.
Proof.
  assert (inaccessible scull_h_k (int_caller false 7) loaded
            (SCULL_IOCXQUANTUM scull_h_k) 4096) as Hacc.
  { right. right. right. left. split; [reflexivity |]. right. reflexivity. }
  split; [exact Hacc |].
  destruct (inaccessible_region_fails_safely scull_h_k (int_caller false 7)
              loaded (SCULL_IOCXQUANTUM scull_h_k) 4096 scull_h_k_ok)
    as (_ & Hlist & _ & _ & Hx & _);
    [apply (bool_decide_unpack _); vm_compute; exact I | exact Hacc |].
  destruct Hx as [Hret Hmem]; [right; reflexivity |].
  split; [exact Hret |]. split; [exact Hlist | exact Hmem].
Defined.

(** C1, as stated, fails: an EXCHANGE through a reference on a read-only
    page passes the range check and loads the new value, the store of the
    old one faults, and the call returns -EFAULT with the quantum
    changed from 4000 to 7. *)
Lemma exchange_store_fault_changes_quantum :
  put_user_int (one_int false 7) 4096 4000 = None
  ∧ (scull_ioctl scull_h_k (int_caller false 7) loaded
       (SCULL_IOCXQUANTUM scull_h_k) 4096).1
    = (- EFAULT, with_quantum 7)
  ∧ scull_quantum
      (scull_ioctl scull_h_k (int_caller false 7) loaded
         (SCULL_IOCXQUANTUM scull_h_k) 4096).1.2
    ≠ scull_quantum loaded.
Proof. split; [reflexivity |]. split; [reflexivity | discriminate]. Qed.

Lemma exchange_swaps_witness :
  get_user_int (one_int true 1) 4096 = Some 1
  ∧ scull_ioctl scull_h_k (int_caller true 1) (with_quantum 8192)
      (SCULL_IOCXQUANTUM scull_h_k) 4096
    = (0, with_quantum 1, one_int true 8192)
  ∧ scull_quantum (with_quantum 1) = 1
  ∧ put_user_int (one_int true 1) 4096 8192 = Some (one_int true 8192)
  ∧ task_info_node_list (with_quantum 1) = [].
Proof.
  split; [reflexivity |]. split; [reflexivity |].
  apply (exchange_swaps scull_h_k (int_caller true 1) (with_quantum 8192)
           4096 1 (with_quantum 1) (one_int true 8192));
    [exact scull_h_k_ok | reflexivity | reflexivity].
Defined.

(** C5, as stated, fails: for the argument word (unsigned long) -1 the
    region check, which the dispatcher applies to every command, rejects
    both the SHIFT and the TELL.  SHIFT returns -EFAULT, the sequential
    program returns the quantum that its QUERY read, and neither leaves
    the quantum equal to the argument. *)
Lemma shift_of_rejected_word_differs :
  scull_ioctl scull_h_k (int_caller true 7) loaded
    (SCULL_IOCHQUANTUM scull_h_k) minus_one_ul
    = (- EFAULT, loaded, one_int true 7)
  ∧ query_then_tell scull_h_k (int_caller true 7) loaded 0 minus_one_ul
    = (4000, loaded, one_int true 7)
  ∧ scull_quantum loaded ≠ int_of minus_one_ul.
Proof. split; [reflexivity |]. split; [reflexivity | discriminate]. Qed.

Lemma shift_is_query_then_tell_witness :
  region_ok (SCULL_IOCHQUANTUM scull_h_k) 99 = true
  ∧ region_ok (SCULL_IOCTQUANTUM scull_h_k) 99 = true
  ∧ region_ok (SCULL_IOCQQUANTUM scull_h_k) 0 = true
  ∧ scull_ioctl scull_h_k (int_caller true 7) (with_quantum 1)
      (SCULL_IOCHQUANTUM scull_h_k) 99
    = query_then_tell scull_h_k (int_caller true 7) (with_quantum 1) 0 99
  ∧ (scull_ioctl scull_h_k (int_caller true 7) (with_quantum 1)
       (SCULL_IOCHQUANTUM scull_h_k) 99).1.1 = 1
  ∧ scull_quantum
      (scull_ioctl scull_h_k (int_caller true 7) (with_quantum 1)
         (SCULL_IOCHQUANTUM scull_h_k) 99).1.2 = 99.
Proof.
  do 3 (split; [reflexivity |]).
  apply (shift_is_query_then_tell scull_h_k (int_caller true 7)
           (with_quantum 1) 0 99);
    [exact scull_h_k_ok | reflexivity | reflexivity | reflexivity].
Defined.

(** C6, as stated, fails: a RESET that arrives with the argument word
    (unsigned long) -1 is rejected by the region check, which the
    dispatcher applies to every command; it returns -EFAULT, and the
    QUERY that follows returns the quantum 7 of before, not the default
    4000. *)
Lemma reset_with_rejected_word_keeps_quantum :
  let r1 := scull_ioctl scull_h_k (int_caller true 0) (with_quantum 7)
              (SCULL_IOCRESET scull_h_k) minus_one_ul in
  r1 = (- EFAULT, with_quantum 7, one_int true 0)
  ∧ (scull_ioctl scull_h_k (int_caller true 0) r1.1.2
       (SCULL_IOCQQUANTUM scull_h_k) 0).1.1 = 7
  ∧ 7 ≠ SCULL_QUANTUM scull_h_k.
Proof. split; [reflexivity |]. split; [reflexivity | discriminate]. Qed.

Lemma reset_then_query_witness :
  let ks := [ Call (int_caller true 8192) (SCULL_IOCSQUANTUM scull_h_k) 4096;
              Call (int_caller true 0) (SCULL_IOCHQUANTUM scull_h_k) 99 ] in
  let r1 := scull_ioctl scull_h_k (int_caller true 0)
              (run scull_h_k loaded ks) (SCULL_IOCRESET scull_h_k) 0 in
  scull_quantum (run scull_h_k loaded ks) = 99
  ∧ r1.1.1 = 0
  ∧ (scull_ioctl scull_h_k (int_caller true 0) r1.1.2
       (SCULL_IOCQQUANTUM scull_h_k) 0).1.1 = 4000
  ∧ scull_ioctl scull_h_k (int_caller true 0) r1.1.2
      (SCULL_IOCRESET scull_h_k) 0
    = (0, r1.1.2, one_int true 0).
Proof.
  split; [reflexivity |].
  apply (reset_then_query scull_h_k (int_caller true 0) (int_caller true 0)
           (int_caller true 0) loaded _ 0 0 0);
    [exact scull_h_k_ok | reflexivity | reflexivity | reflexivity].
Defined.

(** C7, where the code departs from the claim: [get_long_code] has the
    magic type and a number within SCULL_IOC_MAXNR but is none of the
    eight labels; with an argument that the region check rejects, the
    call returns -EFAULT and not -ENOTTY.  The module state and the
    caller's memory are as before. *)
Theorem unmatched_code_rejected_region_is_efault :
  (get_long_code ∉ case_labels scull_h_k)
  ∧ screened scull_h_k get_long_code = true
  ∧ region_ok get_long_code minus_one_ul = false
  ∧ scull_ioctl scull_h_k (int_caller true 7) loaded get_long_code minus_one_ul
    = (- EFAULT, loaded, one_int true 7)
  ∧ EFAULT ≠ ENOTTY.
Proof.
  split; [apply (bool_decide_unpack _); vm_compute; exact I |].
  do 3 (split; [reflexivity |]). discriminate.
Qed.

Lemma identify_survives_kmalloc_failure_witness :
  region_ok (SCULL_IOCIQUANTUM scull_h_k) 8192 = true
  ∧ copy_to_user one_task_info 8192 (snapshot (task 10 10))
    = (0, {[ 8192 := Ucell true (UTaskInfo (snapshot (task 10 10))) ]})
  ∧ scull_ioctl scull_h_k (Caller (task 10 10) false one_task_info) loaded
      (SCULL_IOCIQUANTUM scull_h_k) 8192
    = (0, loaded, {[ 8192 := Ucell true (UTaskInfo (snapshot (task 10 10))) ]}).
Proof.
  do 2 (split; [reflexivity |]).
  apply (identify_survives_kmalloc_failure scull_h_k
           (Caller (task 10 10) false one_task_info) loaded 8192);
    [exact scull_h_k_ok | reflexivity | reflexivity | reflexivity].
Defined.

(** C10, as stated, fails: the argument word (unsigned long) -1 does not
    pass the region check, which the dispatcher applies to TELL and SHIFT
    as to every command; both calls return -EFAULT and leave the quantum
    at 4000, where the low 32 bits of the argument are the int -1. *)
Lemma tell_of_rejected_word_fails :
  scull_ioctl scull_h_k (int_caller true 7) loaded
    (SCULL_IOCTQUANTUM scull_h_k) minus_one_ul
    = (- EFAULT, loaded, one_int true 7)
  ∧ scull_ioctl scull_h_k (int_caller true 7) loaded
      (SCULL_IOCHQUANTUM scull_h_k) minus_one_ul
    = (- EFAULT, loaded, one_int true 7)
  ∧ int_of minus_one_ul = -1
  ∧ scull_quantum loaded ≠ int_of minus_one_ul.
Proof. do 3 (split; [reflexivity |]). discriminate. Qed.

Lemma tell_shift_store_low_bits_witness :
  region_ok (SCULL_IOCTQUANTUM scull_h_k) (2 ^ 32 + 5) = true
  ∧ scull_quantum
      (scull_ioctl scull_h_k (int_caller true 7) loaded
         (SCULL_IOCTQUANTUM scull_h_k) (2 ^ 32 + 5)).1.2 = 5
  ∧ region_ok (SCULL_IOCHQUANTUM scull_h_k) minus_one_ul = false
  ∧ scull_ioctl scull_h_k (int_caller true 7) loaded
      (SCULL_IOCHQUANTUM scull_h_k) minus_one_ul
    = (- EFAULT, loaded, one_int true 7).
Proof.
  split; [reflexivity |].
  destruct (tell_shift_store_low_bits scull_h_k (int_caller true 7) loaded
              (SCULL_IOCTQUANTUM scull_h_k) (2 ^ 32 + 5) scull_h_k_ok)
    as [Hok _]; [left; reflexivity |].
  destruct Hok as [Hq _]; [reflexivity |].
  split; [rewrite Hq; reflexivity |].
  split; [reflexivity |].
  destruct (tell_shift_store_low_bits scull_h_k (int_caller true 7) loaded
              (SCULL_IOCHQUANTUM scull_h_k) minus_one_ul scull_h_k_ok)
    as [_ Hrej]; [right; reflexivity |].
  apply Hrej. reflexivity.
Defined.

(** The first scenario of the section on testable properties. *)
Example quantum_scenario :
  let h := scull_h_k in
  let query st := returned h st (no_arg (SCULL_IOCQQUANTUM h)) in
  let st1 := step h (with_quantum 17) (no_arg (SCULL_IOCRESET h)) in
  let st2 := step h st1 (by_reference (SCULL_IOCSQUANTUM h) 8192) in
  let exchange := by_reference (SCULL_IOCXQUANTUM h) 1 in
  let st3 := step h st2 exchange in
  let shift := by_value (SCULL_IOCHQUANTUM h) 99 in
  let st4 := step h st3 shift in
  query st1 = 4000
  ∧ query st2 = 8192
  ∧ (scull_ioctl h (by_whom exchange) st2 (call_cmd exchange)
       (call_arg exchange)).2 = one_int true 8192
  ∧ query st3 = 1
  ∧ returned h st3 shift = 1
  ∧ query st4 = 99.
Proof. repeat split; reflexivity. Qed.

Example int_of_wraps :
  int_of (2 ^ 32 - 1) = -1 ∧ int_of (2 ^ 31) = - 2 ^ 31 ∧ int_of 4000 = 4000.
Proof. repeat split; reflexivity. Qed.

(** ** The task list on the example header *)

Example first_seen_scenario :
  first_seen [(10, 10); (11, 11); (10, 10); (12, 12)]
    = [(10, 10); (11, 11); (12, 12)].
Proof. reflexivity. Qed.

(** C2, as stated, fails: an IDENTIFY for which kmalloc has no node
    returns 0, yet the teardown report of the module is empty, with one
    identity used. *)
Lemma identify_without_node_is_not_reported :
  (scull_ioctl scull_h_k (by_whom (identify_by 10 10 false)) loaded
     (SCULL_IOCIQUANTUM scull_h_k) 8192).1.1 = 0
  ∧ report (run scull_h_k loaded [identify_by 10 10 false]) = []
  ∧ size (list_to_set (caller_identity <$> [identify_by 10 10 false])
            : gset (Z * Z)) = 1%nat.
Proof. split; [reflexivity |]. split; reflexivity. Qed.

Lemma registry_uniqueness_witness :
  Forall (λ k, records scull_h_k k = true) four_callers
  ∧ NoDup (identities (run scull_h_k loaded four_callers))
  ∧ length (report (run scull_h_k loaded four_callers))
    = size (list_to_set (caller_identity <$> four_callers) : gset (Z * Z)).
Proof.
  assert (Forall (λ k, records scull_h_k k = true) four_callers) as Hall
    by (repeat constructor).
  split; [exact Hall |].
  destruct (registry_uniqueness scull_h_k 4000 four_callers scull_h_k_ok)
    as [Hnd Hlen].
  split; [exact Hnd | exact (Hlen Hall)].
Defined.

Lemma report_in_first_recording_order_witness :
  Z.of_nat (length (task_info_node_list (run scull_h_k loaded four_callers)))
    < 2 ^ 31
  ∧ report (run scull_h_k loaded four_callers)
    = numbered
        (first_seen
           (caller_identity <$> filter (λ k, records scull_h_k k) four_callers))
  ∧ report (run scull_h_k loaded four_callers)
    = [(1, 10, 10); (2, 11, 11); (3, 12, 12)].
Proof.
  split; [vm_compute; reflexivity |].
  split; [| reflexivity].
  apply (report_in_first_recording_order scull_h_k 4000 four_callers);
    [exact scull_h_k_ok | vm_compute; reflexivity].
Defined.

(** * Further properties of the driver *)

(** ** What each command touches *)

Section Frames.

Context (hdr : scull_h) {umem : Type} `{UA : !uaccess umem}.

Implicit Types (c : caller umem) (st : scull_state) (cmd arg : Z)
  (k : call umem).

(** A call with a command other than RESET, SET, TELL, EXCHANGE and SHIFT
    leaves the quantum as it is, whatever its argument and whether it
    succeeds: GET, QUERY, IDENTIFY and every unknown code only read it. *)
Theorem quantum_kept_by_other_commands c st cmd arg :
  cmd ∉ quantum_writers hdr →
  scull_quantum (scull_ioctl hdr c st cmd arg).1.2 = scull_quantum st.
Proof.
  unfold quantum_writers. rewrite !not_elem_of_cons. intros Hne.
  destruct_and!.
  unfold scull_ioctl, scull_switch, __get_user, __put_user.
  repeat match goal with
    | |- context [cmd =? ?x] => destruct (Z.eqb_spec cmd x); [done |]
    | |- context [if ?b then _ else _] => destruct b; simpl; try done
    | |- context [match ?o with Some _ => _ | None => _ end] =>
        destruct o; simpl; try done
    | |- context [let '(_, _) := ?p in _] => destruct p; simpl; try done
    end.
Qed.

Lemma ioctl_extends_list c st cmd arg :
  task_info_node_list st
    `prefix_of` task_info_node_list (scull_ioctl hdr c st cmd arg).1.2
  ∧ (length (task_info_node_list (scull_ioctl hdr c st cmd arg).1.2)
     ≤ S (length (task_info_node_list st)))%nat.
Proof.
  destruct (Z.eqb_spec cmd (SCULL_IOCIQUANTUM hdr)) as [-> | Hne].
  - unfold scull_ioctl, scull_switch, record_task.
    repeat match goal with
      | |- context [if ?b then _ else _] => destruct b; simpl; try done
      | |- context [let '(_, _) := ?p in _] => destruct p; simpl; try done
      end;
      (split;
       [ first [done | by apply prefix_app_r]
       | rewrite ?length_app; simpl; lia ]).
  - rewrite other_commands_keep_list by done. split; [done | lia].
Qed.

(** No sequence of calls takes a node off the task list or moves one:
    the list the module starts with is a prefix of the list it ends
    with, which has grown by one node per call at most. *)
Theorem run_extends_list ks : ∀ st,
  task_info_node_list st `prefix_of` task_info_node_list (run hdr st ks)
  ∧ (length (task_info_node_list (run hdr st ks))
     ≤ length (task_info_node_list st) + length ks)%nat.
Proof.
  induction ks as [| k ks IH]; intros st.
  - split; [done | simpl; lia].
  - unfold run in *. simpl.
    destruct (IH (step hdr st k)) as [Hpre Hlen].
    destruct (ioctl_extends_list (by_whom k) st (call_cmd k) (call_arg k))
      as [Hpre1 Hlen1].
    split; [by etrans | unfold step in *; lia].
Qed.

End Frames.

(** ** Faults after the region check *)

Section Faults.

Context (hdr : scull_h) {umem : Type} `{UA : !uaccess umem}.

Implicit Types (c : caller umem) (st : scull_state) (cmd arg : Z).

Ltac a_label := unfold case_labels; rewrite ?elem_of_cons; tauto.

(** An IDENTIFY whose copy_to_user leaves [n] bytes uncopied returns [n],
    a positive number and not -EFAULT; the task list is not searched and
    nothing is recorded.  The caller's memory is what the partial copy
    left. *)
Theorem identify_copy_fault_returns_count c st arg n m' :
  header_ok hdr →
  region_ok (SCULL_IOCIQUANTUM hdr) arg = true →
  copy_to_user (user c) arg (snapshot (current c)) = (n, m') →
  0 < n < 2 ^ 31 →
  scull_ioctl hdr c st (SCULL_IOCIQUANTUM hdr) arg = (n, st, m').
Proof.
  intros Hok Hreg Hcopy Hn.
  rewrite scull_ioctl_label by (auto; a_label).
  rewrite Hreg, switch_identify, Hcopy by done. simpl.
  rewrite int_of_small by lia.
  destruct (Z.eqb_spec n 0); [lia | done].
Qed.

(** A SET through a reference that passes the region check and faults on
    the load returns -EFAULT and leaves the quantum at 0, the value
    __get_user gives its destination on a fault. *)
Theorem set_load_fault_zeroes_quantum c st arg :
  header_ok hdr →
  region_ok (SCULL_IOCSQUANTUM hdr) arg = true →
  get_user_int (user c) arg = None →
  scull_ioctl hdr c st (SCULL_IOCSQUANTUM hdr) arg
    = (- EFAULT, set_quantum st 0, user c).
Proof.
  intros Hok Hreg Hget.
  rewrite scull_ioctl_label by (auto; a_label).
  rewrite Hreg, switch_set by done.
  unfold __get_user. by rewrite Hget.
Qed.

(** An EXCHANGE whose load succeeds and whose store faults returns
    -EFAULT with the quantum already replaced by the loaded value; the
    caller's memory is untouched, so the old quantum is handed to
    nobody. *)
Theorem exchange_store_fault_keeps_new_value c st arg v :
  header_ok hdr →
  region_ok (SCULL_IOCXQUANTUM hdr) arg = true →
  get_user_int (user c) arg = Some v →
  put_user_int (user c) arg (scull_quantum st) = None →
  scull_ioctl hdr c st (SCULL_IOCXQUANTUM hdr) arg
    = (- EFAULT, set_quantum st v, user c).
Proof.
  intros Hok Hreg Hget Hput.
  rewrite scull_ioctl_label by (auto; a_label).
  by rewrite Hreg, switch_exchange, Hget, Hput by done.
Qed.

(** ** Writing the quantum and reading it back *)

(** A SET that loads [v] returns 0, and the QUERY after it returns [v]. *)
Theorem set_then_query c1 c2 st a1 a2 v :
  header_ok hdr →
  region_ok (SCULL_IOCSQUANTUM hdr) a1 = true →
  region_ok (SCULL_IOCQQUANTUM hdr) a2 = true →
  get_user_int (user c1) a1 = Some v →
  let r1 := scull_ioctl hdr c1 st (SCULL_IOCSQUANTUM hdr) a1 in
  r1.1.1 = 0
  ∧ (scull_ioctl hdr c2 r1.1.2 (SCULL_IOCQQUANTUM hdr) a2).1.1 = v.
Proof.
  intros Hok H1 H2 Hget. simpl.
  rewrite !scull_ioctl_label by (auto; a_label).
  rewrite H1, H2, switch_set, switch_query by done.
  unfold __get_user. by rewrite Hget.
Qed.

(** A TELL of a word below 2^31 that passes the region check is read
    back unchanged by QUERY. *)
Theorem tell_then_query c1 c2 st a junk :
  header_ok hdr →
  region_ok (SCULL_IOCTQUANTUM hdr) a = true →
  region_ok (SCULL_IOCQQUANTUM hdr) junk = true →
  0 ≤ a < 2 ^ 31 →
  let r1 := scull_ioctl hdr c1 st (SCULL_IOCTQUANTUM hdr) a in
  r1.1.1 = 0
  ∧ (scull_ioctl hdr c2 r1.1.2 (SCULL_IOCQQUANTUM hdr) junk).1.1 = a.
Proof.
  intros Hok H1 H2 Ha. simpl.
  rewrite !scull_ioctl_label by (auto; a_label).
  rewrite H1, H2, switch_tell, switch_query by done.
  simpl. split; [done |]. apply int_of_small. lia.
Qed.

(** GET stores through the reference the value that QUERY returns, and
    neither of them changes the module state. *)
Theorem get_stores_what_query_returns c st a1 a2 m' :
  header_ok hdr →
  region_ok (SCULL_IOCGQUANTUM hdr) a1 = true →
  region_ok (SCULL_IOCQQUANTUM hdr) a2 = true →
  scull_ioctl hdr c st (SCULL_IOCGQUANTUM hdr) a1 = (0, st, m') ↔
  put_user_int (user c) a1
    (scull_ioctl hdr c st (SCULL_IOCQQUANTUM hdr) a2).1.1 = Some m'.
Proof.
  intros Hok H1 H2.
  rewrite !scull_ioctl_label by (auto; a_label).
  rewrite H1, H2, switch_get, switch_query by done.
  unfold __put_user. simpl.
  destruct (put_user_int (user c) a1 (scull_quantum st)); simpl;
    split; intros [=]; by subst.
Qed.

End Faults.

(** ** More on the task list *)

Section Registry_more.

Context (hdr : scull_h) {umem : Type} `{UA : !uaccess umem}.

Implicit Types (c : caller umem) (st : scull_state) (k : call umem).

(** After a recording call the caller is found on the task list. *)
Theorem recording_call_lists_caller st k :
  header_ok hdr →
  records hdr k = true →
  found_in (task_info_node_list (step hdr st k))
    (ts_pid (current (by_whom k))) (ts_tgid (current (by_whom k))) = true.
Proof.
  intros Hok Hrec. apply found_in_spec.
  fold (identities (step hdr st k)).
  rewrite step_identities, Hrec by done.
  unfold add_identity, caller_identity.
  destruct (decide _) as [Hin | _]; [done |].
  apply elem_of_app. right. by apply list_elem_of_singleton.
Qed.

(** An IDENTIFY by a task that is on the list already leaves the list as
    it is, whether the copy succeeds and kmalloc has a node or not: no
    node is allocated for a known caller. *)
Theorem known_caller_keeps_list c st arg :
  found_in (task_info_node_list st)
    (ts_pid (current c)) (ts_tgid (current c)) = true →
  task_info_node_list (scull_ioctl hdr c st (SCULL_IOCIQUANTUM hdr) arg).1.2
    = task_info_node_list st.
Proof.
  intros Hfound. unfold scull_ioctl, scull_switch, record_task.
  rewrite Hfound.
  repeat match goal with
    | |- context [if ?b then _ else _] => destruct b; simpl; try done
    | |- context [let '(_, _) := ?p in _] => destruct p; simpl; try done
    end.
Qed.

(** The task list changes in one way only: a recording call by a task
    that is not found on it appends a node with the pid and the tgid of
    that task. *)
Theorem list_changes_only_by_recording st k :
  header_ok hdr →
  task_info_node_list (step hdr st k) ≠ task_info_node_list st →
  records hdr k = true
  ∧ found_in (task_info_node_list st)
      (ts_pid (current (by_whom k))) (ts_tgid (current (by_whom k))) = false
  ∧ task_info_node_list (step hdr st k)
    = task_info_node_list st
      ++ [ {| node_pid := ts_pid (current (by_whom k));
              node_tgid := ts_tgid (current (by_whom k)) |} ].
Proof.
  intros Hok. unfold step, records.
  destruct (Z.eqb_spec (call_cmd k) (SCULL_IOCIQUANTUM hdr)) as [-> | Hne];
    [| by rewrite other_commands_keep_list].
  rewrite scull_ioctl_label
    by (auto; unfold case_labels; rewrite ?elem_of_cons; tauto).
  destruct (region_ok _ _); simpl; [| done].
  rewrite switch_identify by done. simpl.
  destruct (int_of _ =? 0); simpl; [| done].
  unfold record_task.
  destruct (found_in _ _ _); [done |].
  destruct (kmalloc_ok (by_whom k)); done.
Qed.

(** On a module loaded with an empty list, an identity is on the list
    after a sequence of calls exactly when one of the calls with that
    caller identity was a recording one: nothing else gets on the list
    and no recording is lost. *)
Theorem listed_iff_recorded q ks (x : Z * Z) :
  header_ok hdr →
  x ∈ identities (run hdr (Scull_state q []) ks) ↔
  ∃ k, k ∈ ks ∧ records hdr k = true ∧ caller_identity k = x.
Proof.
  intros Hok.
  rewrite run_identities_fresh, elem_of_first_seen, list_elem_of_fmap by done.
  split.
  - intros (k & -> & Hk). apply list_elem_of_filter in Hk as [Hr Hin].
    exists k. split; [done |]. split; [| done].
    by destruct (records hdr k).
  - intros (k & Hin & Hr & <-). exists k. split; [done |].
    apply list_elem_of_filter. split; [by rewrite Hr | done].
Qed.

End Registry_more.

(** The teardown prints the pid and the tgid of every node, in list
    order, however long the list is; only the counter is bounded by the
    range of int. *)
Theorem report_lists_every_node st :
  (λ line : task_line, (line.1.2, line.2)) <$> report st = identities st.
Proof.
  unfold report, scull_cleanup_module, identities.
  assert (∀ l count,
    (λ line : task_line, (line.1.2, line.2)) <$> (cleanup_loop count l).1
      = node_identity <$> l) as Hloop.
  { induction l as [| n l IH]; intros count; [done |].
    rewrite cleanup_loop_cons. simpl. by rewrite IH. }
  specialize (Hloop (task_info_node_list st) 1).
  by destruct (cleanup_loop 1 (task_info_node_list st)).
Qed.

(** * Loading and unloading *)

Section Lifecycle.

Implicit Types (e : init_env) (p : scull_params) (st : scull_state).

Lemma MAJOR_MKDEV (ma mi : Z) :
  0 ≤ ma < 2 ^ 12 → 0 ≤ mi < 2 ^ 20 → MAJOR (MKDEV ma mi) = ma.
Proof.
  intros Hma Hmi. unfold MAJOR, MKDEV, MINORBITS.
  assert (0 ≤ Z.shiftl ma 20 < 2 ^ 32) as Hsh.
  { rewrite Z.shiftl_mul_pow2 by lia. lia. }
  assert (0 ≤ Z.lor (Z.shiftl ma 20) mi < 2 ^ 32) as Hlor.
  { split; [apply Z.lor_nonneg; lia |].
    destruct (Z.eq_dec (Z.lor (Z.shiftl ma 20) mi) 0) as [-> | Hnz]; [lia |].
    apply Z.log2_lt_pow2; [pose proof (Z.lor_nonneg (Z.shiftl ma 20) mi); lia |].
    rewrite Z.log2_lor by lia.
    apply Z.max_lub_lt.
    - destruct (Z.eq_dec (Z.shiftl ma 20) 0) as [-> | ?]; [simpl; lia |].
      apply Z.log2_lt_pow2; lia.
    - destruct (Z.eq_dec mi 0) as [-> | ?]; [simpl; lia |].
      apply Z.log2_lt_pow2; lia. }
  rewrite Z.mod_small by done.
  rewrite Z.shiftr_lor, Z.shiftr_shiftl_l by lia.
  rewrite (Z.shiftr_div_pow2 mi) by lia.
  rewrite Z.div_small by lia.
  simpl. by rewrite Z.lor_0_r.
Qed.

(** When the kernel grants the region, [get_region] does not fail, and
    the device number that the teardown computes from the parameters is
    the one in [dev]. *)
Lemma get_region_granted e p :
  region_granted e p →
  0 ≤ (get_region e p).1.1.1
  ∧ MKDEV (scull_major (get_region e p).1.2) (scull_minor (get_region e p).1.2)
    = (get_region e p).1.1.2.
Proof.
  unfold region_granted, get_region.
  destruct (scull_major p =? 0); simpl.
  - intros (-> & HM & Hm). simpl. split; [done |].
    rewrite MAJOR_MKDEV, int_of_small by lia. done.
  - intros Hreg. done.
Qed.

Lemma cleanup_leaves_empty_list st :
  (scull_cleanup_module st).2 = Scull_state (scull_quantum st) [].
Proof.
  unfold scull_cleanup_module.
  pose proof (cleanup_loop_rest (task_info_node_list st) 1) as H.
  destruct (cleanup_loop 1 (task_info_node_list st)) as [lines rest].
  simpl in *. by subst rest.
Qed.

(** When the region is refused, [scull_init_module] returns the error
    of the kernel and stops there: no cdev is set up, the teardown is
    not run, so that nothing is released, and the module state is as
    before. *)
Theorem init_without_region_stops e p st :
  region_ret e p < 0 →
  let r := scull_init_module e p st in
  r.1.1.1 = region_ret e p
  ∧ r.2 = st
  ∧ Forall (λ k, is_release k = false) r.1.1.2
  ∧ Cdev_init ∉ r.1.1.2.
Proof.
  unfold region_ret, scull_init_module, get_region. intros Hret.
  destruct (scull_major p =? 0); simpl;
    match goal with
    | |- context [?x <? 0] => destruct (Z.ltb_spec x 0) as [_ | ?]; [| lia]
    end; simpl;
    (split; [done |]); (split; [done |]);
    (split; [by repeat constructor |]);
    rewrite !not_elem_of_cons; repeat split; try done;
    apply not_elem_of_nil.
Qed.

(** When the region is granted and cdev_add fails, [scull_init_module]
    returns the error of cdev_add after running the teardown: the tasks
    on the list are printed and the list is emptied, cdev_del is called
    for the cdev that was not added, and the region released is the one
    acquired, under the device number given to cdev_add. *)
Theorem init_cdev_add_failure_unwinds e p st :
  region_granted e p →
  cdev_add_ret e ≠ 0 →
  let r := scull_init_module e p st in
  let dev := (get_region e p).1.1.2 in
  r.1.1.1 = cdev_add_ret e
  ∧ r.1.1.2
    = (get_region e p).2
      ++ [Cdev_init; Cdev_add dev 1; Printk_error_adding (cdev_add_ret e)]
      ++ (Printk_task <$> report st)
      ++ [Cdev_del; Unregister_chrdev_region dev 1]
  ∧ task_info_node_list r.2 = []
  ∧ scull_quantum r.2 = scull_quantum st.
Proof.
  intros Hgr Hadd. apply get_region_granted in Hgr as [Hres Hdev].
  unfold scull_init_module, scull_cleanup_module_calls, report.
  destruct (get_region e p) as [[[result dev] p1] calls1]. simpl in *.
  destruct (Z.ltb_spec result 0) as [? | _]; [lia |].
  destruct (Z.eqb_spec (cdev_add_ret e) 0) as [? | _]; [done |]. simpl.
  rewrite Hdev.
  pose proof (cleanup_leaves_empty_list st) as Hempty.
  destruct (scull_cleanup_module st) as [lines st']. simpl in *. subst st'.
  by rewrite <- !app_assoc.
Qed.

(** When the region is granted and cdev_add returns 0,
    [scull_init_module] returns 0 without releasing anything and without
    touching the module state; and the teardown of the module, whatever
    its state by then, prints the tasks, then deletes the cdev and
    releases the region of the load, under the device number given to
    cdev_add. *)
Theorem load_then_unload e p st st_end :
  region_granted e p →
  cdev_add_ret e = 0 →
  let r := scull_init_module e p st in
  let dev := (get_region e p).1.1.2 in
  r.1.1.1 = 0
  ∧ r.2 = st
  ∧ r.1.1.2 = (get_region e p).2 ++ [Cdev_init; Cdev_add dev 1]
  ∧ (scull_cleanup_module_calls r.1.2 st_end).1
    = (Printk_task <$> report st_end)
      ++ [Cdev_del; Unregister_chrdev_region dev 1].
Proof.
  intros Hgr Hadd. apply get_region_granted in Hgr as [Hres Hdev].
  unfold scull_init_module, scull_cleanup_module_calls, report.
  destruct (get_region e p) as [[[result dev] p1] calls1]. simpl in *.
  destruct (Z.ltb_spec result 0) as [? | _]; [lia |].
  rewrite Hadd. simpl. rewrite Hdev.
  by destruct (scull_cleanup_module st_end).
Qed.

End Lifecycle.

(** * The client program *)

Section Client_properties.

Context (hdr : scull_h) (atoi : string → Z)
  (ioctl : Z → ioctl_arg → Z * ioctl_arg).

Implicit Types (argv : list string) (cmd g_quantum : Z) (out : list output).

(** The character constants as numbers. *)
Ltac letters :=
  unfold accepted_letters, handled_letters, letter in *;
  repeat match goal with
    | |- context [int_of_char ?a] =>
        let v := eval vm_compute in (int_of_char a) in
        change (int_of_char a) with v
    | H : context [int_of_char ?a] |- _ =>
        let v := eval vm_compute in (int_of_char a) in
        change (int_of_char a) with v in H
    end.

Ltac by_letter cmd :=
  repeat match goal with
    | |- context [cmd =? ?n] =>
        destruct (Z.eqb_spec cmd n); simpl; try lia
    | |- context [cmd <? 0] =>
        destruct (Z.ltb_spec cmd 0); simpl; try lia
    end.

(** The case analysis of [parse_arguments]: on the number of arguments
    and on the letter. *)
Ltac parse_cases argv :=
  unfold parse_arguments; letters;
  destruct (Z.ltb_spec (Z.of_nat (length argv)) 2) as [? | Hargc];
    [ simpl
    | set (c := first_char (default EmptyString (argv !! 1%nat)));
      destruct (Z.ltb_spec (Z.of_nat (length argv)) 3) as [? | Hargc3];
      by_letter c ].

Lemma parsed_letter g_quantum argv out cmd g_quantum' :
  parse_arguments atoi g_quantum argv = (out, Parsed cmd g_quantum') →
  out = [] ∧ cmd ∈ accepted_letters.
Proof.
  parse_cases argv; intros [=]; subst out cmd; simpl; letters;
    (split; [done | rewrite !elem_of_cons; lia]).
Qed.

(** When [parse_arguments] returns, it has printed nothing, there are at
    least two arguments, and the command is the first character of the
    second, one of the eleven letters S, T, H, X, R, G, Q, i, P, p, t;
    for S, T, H and X there is a third argument. *)
Theorem parse_arguments_returns_letter g_quantum argv out cmd g_quantum' :
  parse_arguments atoi g_quantum argv = (out, Parsed cmd g_quantum') →
  out = []
  ∧ (2 ≤ length argv)%nat
  ∧ cmd = first_char (default EmptyString (argv !! 1%nat))
  ∧ cmd ∈ accepted_letters
  ∧ (cmd ∈ int_of_char <$> ["S"; "T"; "H"; "X"]%char → (3 ≤ length argv)%nat).
Proof.
  parse_cases argv; intros [=]; subst out cmd; simpl; letters;
    (split; [done |]); (split; [lia |]); (split; [done |]);
    (split;
     [ rewrite !elem_of_cons; lia
     | rewrite !elem_of_cons, elem_of_nil; lia ]).
Qed.

(** When [parse_arguments] makes the process exit, the usage text is the
    last thing printed, and the status is EXIT_SUCCESS exactly when
    there are two arguments or more and the second starts with 'h': a
    missing command, a missing quantum and an unknown letter all give
    EXIT_FAILURE. *)
Theorem parse_arguments_exit_status g_quantum argv out status :
  parse_arguments atoi g_quantum argv = (out, Parse_exit status) →
  last out = Some (Out_usage (argv !! 0%nat))
  ∧ status =
      if bool_decide ((2 ≤ length argv)%nat
                      ∧ first_char (default EmptyString (argv !! 1%nat))
                        = letter "h")
      then EXIT_SUCCESS else EXIT_FAILURE.
Proof.
  unfold parse_arguments. letters.
  destruct (Z.ltb_spec (Z.of_nat (length argv)) 2) as [? | Hargc].
  { simpl. intros [= <- <-]. split; [done |].
    rewrite bool_decide_eq_false_2 by lia. done. }
  set (c := first_char (default EmptyString (argv !! 1%nat))).
  destruct (Z.ltb_spec (Z.of_nat (length argv)) 3) as [? | Hargc3];
    by_letter c; intros [=]; subst out status;
    (split; [done |]);
    first [ rewrite bool_decide_eq_true_2 by (split; [lia | done]); done
          | rewrite bool_decide_eq_false_2 by (intros [_ ?]; lia); done ].
Qed.

(** [parse_arguments] assigns [g_quantum] for S, T, H and X only, from
    the third argument; for the other commands it is left as it was. *)
Theorem parse_arguments_sets_quantum g_quantum argv out cmd g_quantum' :
  parse_arguments atoi g_quantum argv = (out, Parsed cmd g_quantum') →
  g_quantum' =
    if bool_decide (cmd ∈ int_of_char <$> ["S"; "T"; "H"; "X"]%char)
    then atoi (default EmptyString (argv !! 2%nat))
    else g_quantum.
Proof.
  unfold parse_arguments. letters.
  destruct (Z.ltb_spec (Z.of_nat (length argv)) 2) as [? | Hargc].
  { simpl. intros [=]. }
  set (c := first_char (default EmptyString (argv !! 1%nat))).
  destruct (Z.ltb_spec (Z.of_nat (length argv)) 3) as [? | Hargc3];
    by_letter c; intros [=]; subst cmd g_quantum'; simpl; letters;
    first [ rewrite bool_decide_eq_true_2 by (rewrite !elem_of_cons; lia);
            done
          | rewrite bool_decide_eq_false_2 by
              (rewrite !not_elem_of_cons; repeat split;
               first [lia | apply not_elem_of_nil]); done ].
Qed.

Ltac run_ioctl :=
  repeat match goal with
    | |- context [ioctl ?r ?a] => destruct (ioctl r a) as [? ?]; simpl
    end.

(** Of the commands that [parse_arguments] returns, [do_op] has no case
    for 'P' alone: for that letter, and for no other, [do_op] calls
    abort, before any ioctl call and without printing. *)
Theorem parsed_command_aborts_iff_P g_quantum argv out cmd g_quantum' :
  parse_arguments atoi g_quantum argv = (out, Parsed cmd g_quantum') →
  (do_op hdr ioctl cmd g_quantum').2 = Op_aborts ↔ cmd = letter "P".
Proof.
  intros Hparse.
  apply parsed_letter in Hparse as [_ Hin].
  unfold do_op, op_return. letters. simpl in Hin. letters.
  rewrite !elem_of_cons, elem_of_nil in Hin.
  by_letter cmd; run_ioctl; (split; [intros; first [done | lia] |]);
    intros; first [done | lia].
Qed.

(** When [do_op] aborts, it has made no ioctl call and printed
    nothing. *)
Theorem do_op_abort_is_silent cmd g_quantum :
  (do_op hdr ioctl cmd g_quantum).2 = Op_aborts →
  (do_op hdr ioctl cmd g_quantum).1 = [].
Proof.
  unfold do_op, op_return. letters.
  by_letter cmd; run_ioctl; done.
Qed.

Lemma do_op_Q_H_i cmd g_quantum :
  cmd ∈ int_of_char <$> ["Q"; "H"; "i"]%char →
  (do_op hdr ioctl cmd g_quantum).2 = Op_returns 0.
Proof.
  simpl. letters. rewrite !elem_of_cons, elem_of_nil. intros Hin.
  unfold do_op, op_return. letters.
  by_letter cmd; run_ioctl; first [done | lia].
Qed.

(** For 'Q', 'H' and 'i', [do_op] returns 0 and calls no perror whatever
    the ioctl call returns: a failure of the call is not reported. *)
Theorem do_op_hides_failure cmd g_quantum :
  cmd ∈ int_of_char <$> ["Q"; "H"; "i"]%char →
  (do_op hdr ioctl cmd g_quantum).2 = Op_returns 0
  ∧ Perror "ioctl" ∉ (do_op hdr ioctl cmd g_quantum).1.
Proof.
  simpl. letters. rewrite !elem_of_cons, elem_of_nil. intros Hin.
  unfold do_op, op_return. letters.
  by_letter cmd; run_ioctl; try lia;
    (split; [done |]);
    rewrite !not_elem_of_cons; repeat split; try done;
    apply not_elem_of_nil.
Qed.

(** For 'R', 'G', 'T', 'S' and 'X', [do_op] makes one ioctl call and
    returns what the call returns; it calls perror exactly when that is
    not 0. *)
Theorem do_op_returns_ioctl_status cmd g_quantum :
  cmd ∈ int_of_char <$> ["R"; "G"; "T"; "S"; "X"]%char →
  ∃ request a rest,
    (do_op hdr ioctl cmd g_quantum).1 = Sys_ioctl request a :: rest
    ∧ Forall (λ o, is_ioctl o = false) rest
    ∧ (do_op hdr ioctl cmd g_quantum).2 = Op_returns (ioctl request a).1
    ∧ (Perror "ioctl" ∈ rest ↔ (ioctl request a).1 ≠ 0).
Proof.
  simpl. letters. rewrite !elem_of_cons. intros Hin.
  unfold do_op, op_return. letters.
  by_letter cmd;
    try (exfalso;
         destruct Hin as [? | [? | [? | [? | [? | Hnil]]]]];
         [lia | lia | lia | lia | lia | by apply elem_of_nil in Hnil]);
    match goal with
    | |- context [ioctl ?r ?a] =>
        exists r, a; destruct (ioctl r a) as [ret a'] eqn:Hio; simpl;
        destruct (Z.eqb_spec ret 0); simpl;
        eexists; (split; [reflexivity |]);
        (split; [by repeat constructor |]); (split; [done |]);
        rewrite ?elem_of_cons; split; intros;
        first [done | lia | by left | tauto | set_solver]
    end.
Qed.

(** [main] makes an ioctl call only after [parse_arguments] has
    returned and [open] has succeeded. *)
Theorem main_ioctl_needs_open open_ret close_ret argv (o : output) :
  o ∈ (main hdr atoi ioctl open_ret close_ret argv).1 →
  is_ioctl o = true →
  0 ≤ open_ret
  ∧ ∃ cmd g_quantum, parse_arguments atoi 0 argv = ([], Parsed cmd g_quantum).
Proof.
  unfold main. intros Hin Ho.
  destruct (parse_arguments atoi 0 argv) as [out [cmd gq | status]] eqn:Hp.
  - pose proof Hp as Hp'.
    apply parsed_letter in Hp' as [-> _].
    destruct (Z.ltb_spec open_ret 0) as [? | Hopen].
    + simpl in Hin. apply list_elem_of_singleton in Hin as ->. done.
    + split; [done |]. by exists cmd, gq.
  - exfalso. simpl in Hin.
    unfold parse_arguments in Hp. letters.
    destruct (Z.ltb_spec (Z.of_nat (length argv)) 2) as [? | Hargc].
    { simpl in Hp. injection Hp as <- _.
      rewrite !elem_of_cons in Hin.
      destruct Hin as [-> | [-> | Hnil]]; [done | done |].
      by apply elem_of_nil in Hnil. }
    revert Hp.
    set (c := first_char (default EmptyString (argv !! 1%nat))).
    destruct (Z.ltb_spec (Z.of_nat (length argv)) 3) as [? | Hargc3];
      by_letter c; intros [=]; subst out; simpl in Hin;
      rewrite ?elem_of_cons in Hin;
      repeat match type of Hin with
        | _ ∨ _ => destruct Hin as [-> | Hin]; [done |]
        end;
      first [by apply elem_of_nil in Hin | by subst o].
Qed.

(** For the commands 'Q', 'H' and 'i', once the device is open and when
    close succeeds, the process exits with EXIT_SUCCESS whatever the
    ioctl call returns. *)
Theorem main_succeeds_despite_ioctl_failure open_ret argv out cmd g_quantum :
  parse_arguments atoi 0 argv = (out, Parsed cmd g_quantum) →
  cmd ∈ int_of_char <$> ["Q"; "H"; "i"]%char →
  0 ≤ open_ret →
  (main hdr atoi ioctl open_ret 0 argv).2 = Exits EXIT_SUCCESS.
Proof.
  intros Hp Hcmd Hopen. unfold main. rewrite Hp.
  destruct (Z.ltb_spec open_ret 0) as [? | _]; [lia |].
  pose proof (do_op_Q_H_i cmd g_quantum Hcmd) as Hret.
  destruct (do_op hdr ioctl cmd g_quantum) as [out2 e]. simpl in Hret.
  by subst e.
Qed.

End Client_properties.

(** * The further properties on concrete inputs *)

Lemma quantum_kept_by_other_commands_witness :
  (SCULL_IOCGQUANTUM scull_h_k ∉ quantum_writers scull_h_k)
  ∧ scull_quantum
      (scull_ioctl scull_h_k (int_caller true 7) loaded
         (SCULL_IOCGQUANTUM scull_h_k) 4096).1.2 = 4000.
Proof.
  assert (SCULL_IOCGQUANTUM scull_h_k ∉ quantum_writers scull_h_k) as Hnot
    by (apply (bool_decide_unpack _); vm_compute; exact I).
  split; [exact Hnot |].
  exact (quantum_kept_by_other_commands scull_h_k (int_caller true 7) loaded
           (SCULL_IOCGQUANTUM scull_h_k) 4096 Hnot).
Defined.

Lemma unmatched_no_mutation_witness :
  (get_long_code ∉ case_labels scull_h_k)
  ∧ scull_ioctl scull_h_k (int_caller true 7) loaded get_long_code 4096
    = (- ENOTTY, loaded, one_int true 7).
Proof.
  assert (get_long_code ∉ case_labels scull_h_k) as Hnot
    by (apply (bool_decide_unpack _); vm_compute; exact I).
  split; [exact Hnot |].
  exact (unmatched_no_mutation scull_h_k (int_caller true 7) loaded
           get_long_code 4096 Hnot).
Defined.

Lemma identify_copy_fault_returns_count_witness :
  copy_to_user (one_int true 7) 8192 (snapshot (task 1 1))
    = (40, one_int true 7)
  ∧ scull_ioctl scull_h_k (int_caller true 7) loaded
      (SCULL_IOCIQUANTUM scull_h_k) 8192
    = (40, loaded, one_int true 7).
Proof.
  split; [reflexivity |].
  apply (identify_copy_fault_returns_count scull_h_k (int_caller true 7)
           loaded 8192 40 (one_int true 7));
    [exact scull_h_k_ok | reflexivity | reflexivity | lia].
Defined.

Lemma set_load_fault_zeroes_quantum_witness :
  get_user_int one_task_info 4096 = None
  ∧ scull_ioctl scull_h_k (Caller (task 1 1) true one_task_info) loaded
      (SCULL_IOCSQUANTUM scull_h_k) 4096
    = (- EFAULT, with_quantum 0, one_task_info).
Proof.
  split; [reflexivity |].
  apply (set_load_fault_zeroes_quantum scull_h_k
           (Caller (task 1 1) true one_task_info) loaded 4096);
    [exact scull_h_k_ok | reflexivity | reflexivity].
Defined.

Lemma exchange_store_fault_keeps_new_value_witness :
  get_user_int (one_int false 7) 4096 = Some 7
  ∧ put_user_int (one_int false 7) 4096 4000 = None
  ∧ scull_ioctl scull_h_k (int_caller false 7) loaded
      (SCULL_IOCXQUANTUM scull_h_k) 4096
    = (- EFAULT, with_quantum 7, one_int false 7).
Proof.
  do 2 (split; [reflexivity |]).
  apply (exchange_store_fault_keeps_new_value scull_h_k
           (int_caller false 7) loaded 4096 7);
    [exact scull_h_k_ok | reflexivity | reflexivity | reflexivity].
Defined.

Lemma set_then_query_witness :
  get_user_int (one_int true 8192) 4096 = Some 8192
  ∧ (scull_ioctl scull_h_k (int_caller true 8192) loaded
       (SCULL_IOCSQUANTUM scull_h_k) 4096).1.1 = 0
  ∧ (scull_ioctl scull_h_k (int_caller true 0)
       (scull_ioctl scull_h_k (int_caller true 8192) loaded
          (SCULL_IOCSQUANTUM scull_h_k) 4096).1.2
       (SCULL_IOCQQUANTUM scull_h_k) 0).1.1 = 8192.
Proof.
  split; [reflexivity |].
  apply (set_then_query scull_h_k (int_caller true 8192) (int_caller true 0)
           loaded 4096 0 8192);
    [exact scull_h_k_ok | reflexivity | reflexivity | reflexivity].
Defined.

Lemma tell_then_query_witness :
  (scull_ioctl scull_h_k (int_caller true 0) loaded
     (SCULL_IOCTQUANTUM scull_h_k) 99).1.1 = 0
  ∧ (scull_ioctl scull_h_k (int_caller true 0)
       (scull_ioctl scull_h_k (int_caller true 0) loaded
          (SCULL_IOCTQUANTUM scull_h_k) 99).1.2
       (SCULL_IOCQQUANTUM scull_h_k) 0).1.1 = 99.
Proof.
  apply (tell_then_query scull_h_k (int_caller true 0) (int_caller true 0)
           loaded 99 0);
    [exact scull_h_k_ok | reflexivity | reflexivity | lia].
Defined.

Lemma get_stores_what_query_returns_witness :
  scull_ioctl scull_h_k (int_caller true 7) loaded
    (SCULL_IOCGQUANTUM scull_h_k) 4096
    = (0, loaded, one_int true 4000).
Proof.
  apply (get_stores_what_query_returns scull_h_k (int_caller true 7) loaded
           4096 0 (one_int true 4000));
    [exact scull_h_k_ok | reflexivity | reflexivity | reflexivity].
Defined.

Lemma run_extends_list_example :
  task_info_node_list (run scull_h_k two_tasks four_callers)
    = task_info_node_list two_tasks ++ [Task_info_node 12 12].
Proof. reflexivity. Qed.

Lemma recording_call_lists_caller_witness :
  records scull_h_k (identify_by 10 10 true) = true
  ∧ found_in
      (task_info_node_list (step scull_h_k loaded (identify_by 10 10 true)))
      10 10 = true.
Proof.
  split; [reflexivity |].
  apply (recording_call_lists_caller scull_h_k loaded (identify_by 10 10 true));
    [exact scull_h_k_ok | reflexivity].
Defined.

Lemma known_caller_keeps_list_witness :
  found_in (task_info_node_list two_tasks) 10 10 = true
  ∧ task_info_node_list
      (scull_ioctl scull_h_k (Caller (task 10 10) true one_task_info)
         two_tasks (SCULL_IOCIQUANTUM scull_h_k) 8192).1.2
    = task_info_node_list two_tasks.
Proof.
  split; [reflexivity |].
  apply (known_caller_keeps_list scull_h_k
           (Caller (task 10 10) true one_task_info) two_tasks 8192).
  reflexivity.
Defined.

Lemma list_changes_only_by_recording_witness :
  task_info_node_list (step scull_h_k loaded (identify_by 10 10 true))
    ≠ task_info_node_list loaded
  ∧ records scull_h_k (identify_by 10 10 true) = true
  ∧ found_in (task_info_node_list loaded) 10 10 = false
  ∧ task_info_node_list (step scull_h_k loaded (identify_by 10 10 true))
    = [Task_info_node 10 10].
Proof.
  assert (task_info_node_list (step scull_h_k loaded (identify_by 10 10 true))
            ≠ task_info_node_list loaded) as Hne by (vm_compute; discriminate).
  split; [exact Hne |].
  exact (list_changes_only_by_recording scull_h_k loaded
           (identify_by 10 10 true) scull_h_k_ok Hne).
Defined.

Lemma listed_iff_recorded_witness :
  (11, 11) ∈ identities (run scull_h_k loaded four_callers).
Proof.
  apply (listed_iff_recorded scull_h_k 4000 four_callers (11, 11)
           scull_h_k_ok).
  exists (identify_by 11 11 true).
  split; [| split; reflexivity].
  unfold four_callers. rewrite !elem_of_cons. tauto.
Defined.

Lemma init_without_region_stops_witness :
  region_ret (kernel_240 0 (-16) 0) default_params = -16
  ∧ (scull_init_module (kernel_240 0 (-16) 0) default_params loaded).1.1.1
    = -16
  ∧ (scull_init_module (kernel_240 0 (-16) 0) default_params loaded).1.1.2
    = [Alloc_chrdev_region 0 1; Printk_cant_get_major 0].
Proof.
  split; [reflexivity |].
  destruct (init_without_region_stops (kernel_240 0 (-16) 0) default_params
              loaded) as (Hret & _); [reflexivity |].
  split; [exact Hret | reflexivity].
Defined.

Lemma init_cdev_add_failure_unwinds_witness :
  region_granted (kernel_240 0 0 (-12)) default_params
  ∧ (scull_init_module (kernel_240 0 0 (-12)) default_params two_tasks).1.1.2
    = [ Alloc_chrdev_region 0 1; Cdev_init; Cdev_add (MKDEV 240 0) 1;
        Printk_error_adding (-12);
        Printk_task (1, 10, 10); Printk_task (2, 11, 11);
        Cdev_del; Unregister_chrdev_region (MKDEV 240 0) 1 ].
Proof.
  assert (region_granted (kernel_240 0 0 (-12)) default_params) as Hgr
    by (unfold region_granted; simpl; lia).
  split; [exact Hgr |].
  destruct (init_cdev_add_failure_unwinds (kernel_240 0 0 (-12)) default_params
              two_tasks Hgr) as (_ & Hcalls & _); [discriminate |].
  rewrite Hcalls. reflexivity.
Defined.

Lemma load_then_unload_witness :
  region_granted (kernel_240 0 0 0) chosen_params
  ∧ (scull_init_module (kernel_240 0 0 0) chosen_params loaded).1.1.1 = 0
  ∧ (scull_cleanup_module_calls
       (scull_init_module (kernel_240 0 0 0) chosen_params loaded).1.2
       two_tasks).1
    = [ Printk_task (1, 10, 10); Printk_task (2, 11, 11);
        Cdev_del; Unregister_chrdev_region (MKDEV 61 3) 1 ].
Proof.
  assert (region_granted (kernel_240 0 0 0) chosen_params) as Hgr
    by (unfold region_granted; simpl; lia).
  split; [exact Hgr |].
  destruct (load_then_unload (kernel_240 0 0 0) chosen_params loaded two_tasks
              Hgr) as (Hret & _ & _ & Hcalls); [reflexivity |].
  split; [exact Hret |]. rewrite Hcalls. reflexivity.
Defined.

Lemma parse_arguments_returns_letter_witness :
  parse_arguments atoi_digits 0 ["scull"; "T"; "42"]
    = ([], Parsed (letter "T") 42)
  ∧ letter "T" ∈ accepted_letters.
Proof.
  split; [reflexivity |].
  destruct (parse_arguments_returns_letter atoi_digits 0
              ["scull"; "T"; "42"] [] (letter "T") 42)
    as (_ & _ & _ & Hin & _); [reflexivity | exact Hin].
Defined.

Lemma parse_arguments_exit_status_witness :
  parse_arguments atoi_digits 0 ["scull"; "I"]
    = ([Err_invalid_command (Some "scull"); Out_usage (Some "scull")],
       Parse_exit EXIT_FAILURE)
  ∧ last [Err_invalid_command (Some "scull"); Out_usage (Some "scull")]
    = Some (Out_usage (Some "scull")).
Proof.
  split; [reflexivity |].
  destruct (parse_arguments_exit_status atoi_digits 0 ["scull"; "I"]
              [Err_invalid_command (Some "scull"); Out_usage (Some "scull")]
              EXIT_FAILURE) as [Hlast _]; [reflexivity | exact Hlast].
Defined.

Lemma parse_arguments_sets_quantum_witness :
  parse_arguments atoi_digits 0 ["scull"; "X"; "8192"]
    = ([], Parsed (letter "X") 8192)
  ∧ 8192 = atoi_digits "8192".
Proof.
  split; [reflexivity |].
  apply (parse_arguments_sets_quantum atoi_digits 0 ["scull"; "X"; "8192"]
           [] (letter "X") 8192).
  reflexivity.
Defined.

Lemma parsed_command_aborts_iff_P_witness :
  parse_arguments atoi_digits 0 ["scull"; "P"] = ([], Parsed (letter "P") 0)
  ∧ (do_op scull_h_k obliging_ioctl (letter "P") 0).2 = Op_aborts.
Proof.
  split; [reflexivity |].
  apply (parsed_command_aborts_iff_P scull_h_k atoi_digits obliging_ioctl 0
           ["scull"; "P"] [] (letter "P") 0);
    reflexivity.
Defined.

Lemma do_op_abort_is_silent_witness :
  (do_op scull_h_k obliging_ioctl (letter "P") 0).2 = Op_aborts
  ∧ (do_op scull_h_k obliging_ioctl (letter "P") 0).1 = [].
Proof.
  split; [reflexivity |].
  apply (do_op_abort_is_silent scull_h_k obliging_ioctl (letter "P") 0).
  reflexivity.
Defined.

Lemma do_op_hides_failure_witness :
  failing_ioctl (SCULL_IOCQQUANTUM scull_h_k) Arg_none = (-1, Arg_none)
  ∧ (do_op scull_h_k failing_ioctl (letter "Q") 0).2 = Op_returns 0
  ∧ Perror "ioctl" ∉ (do_op scull_h_k failing_ioctl (letter "Q") 0).1.
Proof.
  split; [reflexivity |].
  apply (do_op_hides_failure scull_h_k failing_ioctl (letter "Q") 0).
  apply (bool_decide_unpack _). vm_compute. exact I.
Defined.

Lemma do_op_returns_ioctl_status_witness :
  ∃ request a rest,
    (do_op scull_h_k failing_ioctl (letter "S") 42).1
      = Sys_ioctl request a :: rest
    ∧ Forall (λ o, is_ioctl o = false) rest
    ∧ (do_op scull_h_k failing_ioctl (letter "S") 42).2
      = Op_returns (failing_ioctl request a).1
    ∧ (Perror "ioctl" ∈ rest ↔ (failing_ioctl request a).1 ≠ 0).
Proof.
  apply (do_op_returns_ioctl_status scull_h_k failing_ioctl (letter "S") 42).
  apply (bool_decide_unpack _). vm_compute. exact I.
Defined.

Lemma main_ioctl_needs_open_witness :
  Sys_ioctl (SCULL_IOCQQUANTUM scull_h_k) Arg_none
    ∈ (main scull_h_k atoi_digits obliging_ioctl 3 0 ["scull"; "Q"]).1
  ∧ 0 ≤ 3
  ∧ ∃ cmd g_quantum,
      parse_arguments atoi_digits 0 ["scull"; "Q"]
        = ([], Parsed cmd g_quantum).
Proof.
  assert (Sys_ioctl (SCULL_IOCQQUANTUM scull_h_k) Arg_none
            ∈ (main scull_h_k atoi_digits obliging_ioctl 3 0
                 ["scull"; "Q"]).1) as Hin.
  { replace (main scull_h_k atoi_digits obliging_ioctl 3 0 ["scull"; "Q"]).1
      with [ Out_device_opened;
             Sys_ioctl (SCULL_IOCQQUANTUM scull_h_k) Arg_none;
             Out_quantum (Some 0); Out_device_closed ] by reflexivity.
    rewrite !elem_of_cons. right. left. reflexivity. }
  split; [exact Hin |].
  exact (main_ioctl_needs_open scull_h_k atoi_digits obliging_ioctl 3 0
           ["scull"; "Q"] _ Hin eq_refl).
Defined.

Lemma main_succeeds_despite_ioctl_failure_witness :
  (main scull_h_k atoi_digits failing_ioctl 3 0 ["scull"; "Q"]).1
    = [ Out_device_opened;
        Sys_ioctl (SCULL_IOCQQUANTUM scull_h_k) Arg_none;
        Out_quantum (Some (-1)); Out_device_closed ]
  ∧ (main scull_h_k atoi_digits failing_ioctl 3 0 ["scull"; "Q"]).2
    = Exits EXIT_SUCCESS.
Proof.
  split; [reflexivity |].
  apply (main_succeeds_despite_ioctl_failure scull_h_k atoi_digits
           failing_ioctl 3 ["scull"; "Q"] [] (letter "Q") 0);
    [reflexivity | | lia].
  apply (bool_decide_unpack _). vm_compute. exact I.
Defined.
